(** * Heroku account management ([accounts/acnt-mgmt.py])

    A shallow embedding of the command-line utility that lists the members
    of a Heroku team, classifies every account against Mozilla's policy and
    revokes memberships, together with the properties its specification
    states about it.

    Python objects are modelled as records, the module globals
    ([Heroku_Token], the two [functools.lru_cache] tables, standard output)
    as an explicit program state, and everything the program does to the
    outside (the [op] secret tool, the HTTP requests, the clipboard) as a
    trace of events answered by an environment.  Exceptions are values of
    the type [exn]; a computation returns either a value or the exception it
    raised, next to the world it leaves behind. *)

From stdpp Require Import base option list strings gmap pretty.

Open Scope string_scope.
Open Scope list_scope.

(** ** Strings *)

(** [s.startswith(p)] *)
Fixpoint startswith (s p : string) {struct p} : bool :=
  match p with
  | EmptyString => true
  | String c p' =>
      match s with
      | EmptyString => false
      | String d s' => Ascii.eqb c d && startswith s' p'
      end
  end.

(** [s.endswith(suf)]: some tail of [s] is [suf]. *)
Fixpoint endswith (s suf : string) : bool :=
  String.eqb s suf ||
  match s with
  | EmptyString => false
  | String _ s' => endswith s' suf
  end.

(** [s.endswith(sufs)] for a tuple of suffixes. *)
Definition endswith_any (s : string) (sufs : list string) : bool :=
  existsb (endswith s) sufs.

(** ["\n".join(l)] *)
Definition newline : string := String (Ascii.ascii_of_nat 10) EmptyString.

Fixpoint join (sep : string) (l : list string) : string :=
  match l with
  | [] => ""
  | [x] => x
  | x :: rest => x +:+ sep +:+ join sep rest
  end.

(** [str(b)] for a Python [bool]. *)
Definition str_bool (b : bool) : string := if b then "True" else "False".

(** ** Exceptions *)

Inductive exn : Type :=
  | HTTPError (code : Z)      (* urllib.error.HTTPError, an OSError with [code] *)
  | URLError                  (* any other OSError of urlopen: no [code] attribute *)
  | ValueError                (* UnicodeDecodeError, json.JSONDecodeError *)
  | AttributeError
  | AssertionError
  | IndexError
  | TypeError
  | SystemExit (msg : string).

(** [isinstance(e, OSError)] *)
Definition is_OSError (e : exn) : bool :=
  match e with
  | HTTPError _ | URLError => true
  | _ => false
  end.

(** [isinstance(e, Exception)]: [SystemExit] derives from [BaseException]
    only. *)
Definition is_Exception (e : exn) : bool :=
  match e with
  | SystemExit _ => false
  | _ => true
  end.

(** ** Account records *)

Inductive Account_Type : Type :=
  | T_UNSET | STAFF | SERVICE | COMMUNITY | T_UNKNOWN.

Inductive Account_Status : Type :=
  | S_UNSET | OKAY | BAD | S_UNKNOWN.

Global Instance Account_Type_eq_dec : EqDecision Account_Type.
Proof. solve_decision. Defined.

Global Instance Account_Status_eq_dec : EqDecision Account_Status.
Proof. solve_decision. Defined.

(** [Account_Type.name] and [Account_Status.name] *)
Definition type_name (t : Account_Type) : string :=
  match t with
  | T_UNSET => "UNSET" | STAFF => "STAFF" | SERVICE => "SERVICE"
  | COMMUNITY => "COMMUNITY" | T_UNKNOWN => "UNKNOWN"
  end.

Definition status_name (s : Account_Status) : string :=
  match s with
  | S_UNSET => "UNSET" | OKAY => "OKAY" | BAD => "BAD" | S_UNKNOWN => "UNKNOWN"
  end.

Definition Staff_Email_Domains : list string :=
  [ "@mozilla.com"; "@mozillafoundation.org"; "@getpocket.com";
    "@readitlater.com"; "@mozilla-japan.org"; "@mozilla.ai"; "@mozilla.vc";
    "@thunderbird.net" ].

(** The [role] attribute: its class-level default is the object
    [str | None] itself; the API sends a string or [null]. *)
Inductive role_value : Type :=
  | RoleDefault
  | RoleNone
  | RoleStr (s : string).

Definition str_role (r : role_value) : string :=
  match r with
  | RoleDefault => "str | None"
  | RoleNone => "None"
  | RoleStr s => s
  end.

Record Account : Type := mkAccount {
  email : string;
  federated : bool;
  role : role_value;
  two_factor_authentication : bool;
  account_type : Account_Type;
  account_status : Account_Status;
  needs_action : bool
}.

(** [Account()] *)
Definition Account_new : Account :=
  {| email := ""; federated := false; role := RoleDefault;
     two_factor_authentication := false; account_type := T_UNSET;
     account_status := S_UNSET; needs_action := true |}.

Definition set_email (v : string) (a : Account) : Account :=
  mkAccount v (federated a) (role a) (two_factor_authentication a)
            (account_type a) (account_status a) (needs_action a).
Definition set_federated (v : bool) (a : Account) : Account :=
  mkAccount (email a) v (role a) (two_factor_authentication a)
            (account_type a) (account_status a) (needs_action a).
Definition set_role (v : role_value) (a : Account) : Account :=
  mkAccount (email a) (federated a) v (two_factor_authentication a)
            (account_type a) (account_status a) (needs_action a).
Definition set_two_factor_authentication (v : bool) (a : Account) : Account :=
  mkAccount (email a) (federated a) (role a) v
            (account_type a) (account_status a) (needs_action a).
Definition set_account_type (v : Account_Type) (a : Account) : Account :=
  mkAccount (email a) (federated a) (role a) (two_factor_authentication a)
            v (account_status a) (needs_action a).
Definition set_account_status (v : Account_Status) (a : Account) : Account :=
  mkAccount (email a) (federated a) (role a) (two_factor_authentication a)
            (account_type a) v (needs_action a).
Definition set_needs_action (v : bool) (a : Account) : Account :=
  mkAccount (email a) (federated a) (role a) (two_factor_authentication a)
            (account_type a) (account_status a) v.

(** [Account.classify]: the method mutates [self]; the embedding returns the
    record as the call leaves it, with [inl ()] for a normal return and
    [inr e] for the exception raised.  The two entry assertions fail before
    any field is written. *)
Definition classify (self : Account) : Account * (unit + exn) :=
  if negb (bool_decide (account_type self = T_UNSET)) then
    (self, inr AssertionError)
  else if negb (bool_decide (account_status self = S_UNSET)) then
    (self, inr AssertionError)
  else
    (* First figure out what type of account it is *)
    let self :=
      if endswith_any (email self) Staff_Email_Domains then
        if startswith (email self) "heroku-" then
          set_account_type SERVICE self
        else
          set_account_type STAFF self
      else
        if startswith (email self) "heroku-" then
          set_account_type T_UNKNOWN self
        else
          set_account_type COMMUNITY self in
    (* Now figure if the authentication method is valid *)
    let self :=
      if federated self && bool_decide (account_type self = STAFF) then
        set_account_status OKAY self
      else if two_factor_authentication self
              && bool_decide (account_type self = COMMUNITY) then
        set_account_status OKAY self
      else if bool_decide (account_type self = SERVICE)
              && negb (federated self && two_factor_authentication self) then
        set_account_status OKAY self
      else if bool_decide (account_status self = S_UNKNOWN) then
        set_account_status S_UNKNOWN self
      else
        set_account_status BAD self in
    (* Finally, is action needed *)
    let self :=
      if negb (bool_decide (account_type self = T_UNKNOWN)
               || bool_decide (account_type self = T_UNSET))
         && bool_decide (account_status self = OKAY) then
        set_needs_action false self
      else
        set_needs_action true self in
    if negb (bool_decide (account_type self ≠ T_UNSET)) then
      (self, inr AssertionError)
    else if negb (bool_decide (account_status self ≠ S_UNSET)) then
      (self, inr AssertionError)
    else
      (self, inl tt).

(** [Account.as_text] *)
Definition as_text (self : Account) : string :=
  let action :=
    if needs_action self then
      "BAD! type=" +:+ type_name (account_type self)
      +:+ "; status=" +:+ status_name (account_status self)
      +:+ "; SSO=" +:+ str_bool (federated self)
      +:+ "; 2FA=" +:+ str_bool (two_factor_authentication self)
    else "okay" in
  action +:+ ": " +:+ email self +:+ " is a " +:+ type_name (account_type self)
  +:+ " account with " +:+ str_role (role self) +:+ " permissions.".

(** A record on which [classify] has not run yet. *)
Definition fresh (a : Account) : Prop :=
  account_type a = T_UNSET ∧ account_status a = S_UNSET.

(** The policy of the specification, written from its wording, to compare
    [classify] with. *)
Definition spec_type (e : string) : Account_Type :=
  if endswith_any e Staff_Email_Domains
  then (if startswith e "heroku-" then SERVICE else STAFF)
  else (if startswith e "heroku-" then T_UNKNOWN else COMMUNITY).

Definition spec_status (t : Account_Type) (fed tfa : bool) : Account_Status :=
  match t, fed, tfa with
  | STAFF, true, _ => OKAY
  | COMMUNITY, _, true => OKAY
  | SERVICE, true, true => BAD
  | SERVICE, _, _ => OKAY
  | _, _, _ => BAD
  end.

Definition spec_needs_action (t : Account_Type) (s : Account_Status) : bool :=
  match t, s with
  | T_UNKNOWN, _ | T_UNSET, _ => true
  | _, OKAY => false
  | _, _ => true
  end.

(** * The program around the classifier *)

(** ** Values exchanged with the outside *)

(** A parsed JSON document ([json.loads]) that the program passes on without
    looking inside: a Python [str], or any other value (dict, list, number,
    bool, None), kept as its text. *)
Inductive json : Type :=
  | JStr (s : string)
  | JOther (text : string).

(** One element of the member list the API returns: the keys of the
    dictionary that name a field of [Account], each present or absent.  The
    API sends booleans for the two flags and a string or [null] for the
    role, and no key named after a computed field. *)
Record raw_member : Type := mkRaw {
  raw_email : option string;
  raw_federated : option bool;
  raw_role : option (option string);
  raw_two_factor_authentication : option bool
}.

Inductive http_method : Type := GET | DELETE.

Record request : Type := mkRequest {
  req_method : http_method;
  req_url : string;
  req_headers : list (string * string)
}.

(** What [request.urlopen] followed by [f.read().decode] and [json.loads]
    gives. *)
Inductive response (A : Type) : Type :=
  | RespOK (body : A)
  | RespHTTPError (code : Z)
  | RespURLError
  | RespBadBody.
Global Arguments RespOK {A} body.
Global Arguments RespHTTPError {A} code.
Global Arguments RespURLError {A}.
Global Arguments RespBadBody {A}.

(** What the program does to the outside, in order. *)
Inductive event : Type :=
  | EvOp (ref : string)            (* subprocess.run(["op", "read", ref]) *)
  | EvRequest (r : request)        (* request.urlopen(r) *)
  | EvClip (text : string).        (* pyperclip.copy(text) *)

(** The outside: every answer may depend on all that happened before.
    [op_read] gives the stripped, decoded output of the tool, or the [repr]
    of the exception of a failed run. *)
Record environment : Type := mkEnv {
  op_read : list event → string → string + string;
  api_members : list event → request → response (list raw_member);
  api_delete : list event → request → response json
}.

(** ** Program state *)

(** A line on standard output: a string, or the [repr] of an exception. *)
Inductive out_item : Type :=
  | OutStr (s : string)
  | OutRepr (e : exn).

(** The module globals.  The two [functools.lru_cache] tables are keyed by
    the team; a run only ever uses one team, far below the cache size. *)
Record state : Type := mkState {
  Heroku_Token : option string;
  members_cache : gmap string (list raw_member);
  all_members_cache : gmap string (list Account);
  stdout : list out_item
}.

Record world : Type := mkWorld {
  st : state;
  trace : list event
}.

Definition initial_state : state :=
  {| Heroku_Token := None; members_cache := ∅; all_members_cache := ∅;
     stdout := [] |}.

Definition initial_world : world := {| st := initial_state; trace := [] |}.

(** ** Computations: state, trace and exceptions *)

Definition M (A : Type) : Type := world → world * (A + exn).

Definition ret {A} (a : A) : M A := λ w, (w, inl a).

Definition raise {A} (e : exn) : M A := λ w, (w, inr e).

Definition bind {A B} (c : M A) (k : A → M B) : M B :=
  λ w, match c w with
       | (w', inl a) => k a w'
       | (w', inr e) => (w', inr e)
       end.

(** [try: c except <class> as e: h e]; other exceptions pass through. *)
Definition try_except {A} (c : M A) (catches : exn → bool) (h : exn → M A)
  : M A :=
  λ w, match c w with
       | (w', inl a) => (w', inl a)
       | (w', inr e) => if catches e then h e w' else (w', inr e)
       end.

Declare Scope prog_scope.
Delimit Scope prog_scope with prog.
Notation "x <- c ;; k" := (bind c (λ x, k))
  (at level 100, c at next level, right associativity) : prog_scope.
Notation "c ;; k" := (bind c (λ _, k))
  (at level 100, right associativity) : prog_scope.
Open Scope prog_scope.

Definition get_state : M state := λ w, (w, inl (st w)).

Definition modify_state (f : state → state) : M unit :=
  λ w, ({| st := f (st w); trace := trace w |}, inl tt).

Definition get_trace : M (list event) := λ w, (w, inl (trace w)).

Definition emit (ev : event) : M unit :=
  λ w, ({| st := st w; trace := trace w ++ [ev] |}, inl tt).

Definition set_Heroku_Token (v : option string) (s : state) : state :=
  mkState v (members_cache s) (all_members_cache s) (stdout s).
Definition set_members_cache (v : gmap string (list raw_member)) (s : state)
  : state :=
  mkState (Heroku_Token s) v (all_members_cache s) (stdout s).
Definition set_all_members_cache (v : gmap string (list Account)) (s : state)
  : state :=
  mkState (Heroku_Token s) (members_cache s) v (stdout s).
Definition set_stdout (v : list out_item) (s : state) : state :=
  mkState (Heroku_Token s) (members_cache s) (all_members_cache s) v.

(** [print(x)] *)
Definition print (o : out_item) : M unit :=
  modify_state (λ s, set_stdout (stdout s ++ [o]) s).

(** [for x in l: ... status.append(f x)] *)
Fixpoint for_each {A B} (f : A → M B) (l : list A) : M (list B) :=
  match l with
  | [] => ret []
  | x :: rest =>
      y <- f x ;;
      ys <- for_each f rest ;;
      ret (y :: ys)
  end.

(** ** Command line *)

Inductive handler : Type :=
  | member_list_cmd
  | member_emails_cmd
  | membership_verify_cmd
  | membership_revoke_cmd.

(** The [argparse.Namespace] used as context object. *)
Record Context : Type := mkContext {
  token : option string;     (* --token / HEROKU_TOKEN, [None] when neither *)
  team : string;
  clip : bool;
  func : handler;
  all : bool;                (* list --all *)
  emails : list string       (* verify / revoke arguments *)
}.

(** What a handler puts in its result list. *)
Inductive item : Type :=
  | IAccount (a : Account)
  | IStr (s : string)
  | IJson (j : json).

(** ** The functions of the script *)

Section Program.

Variable env : environment.

(** [bool(x)] of an optional string: [None] and the empty string are false. *)
Definition truthy (t : option string) : bool :=
  match t with
  | None | Some EmptyString => false
  | Some _ => true
  end.

(** [str(Heroku_Token)] *)
Definition str_token (t : option string) : string :=
  match t with
  | None => "None"
  | Some s => s
  end.

(** [subprocess.run(["op", "read", ref], capture_output=True, check=True)]
    and the decoding of its output, wrapped in the [try] of [login]. *)
Definition run_op (ref : string) : M string :=
  h <- get_trace ;;
  emit (EvOp ref) ;;
  match op_read env h ref with
  | inl out => ret out
  | inr repr_e =>
      raise (SystemExit ("failed to retrieve token from `op`: " +:+ repr_e))
  end.

Definition login (token : option string) (team : string) : M unit :=
  s <- get_state ;;
  (if truthy (Heroku_Token s) then
     (* already done *)
     ret tt
   else ret tt) ;;
  match token with
  | None => raise AttributeError      (* None has no [startswith] *)
  | Some tok =>
      tok <- (if startswith tok "op://" then run_op tok else ret tok) ;;
      modify_state (set_Heroku_Token (Some tok))
  end.

Definition _get_headers : M (list (string * string)) :=
  s <- get_state ;;
  ret [ ("Accept", "application/vnd.heroku+json; version=3");
        ("Authorization", "Bearer " +:+ str_token (Heroku_Token s)) ].

(** [request.urlopen(req)], reading and parsing the body. *)
Definition urlopen {A} (api : list event → request → response A)
    (req : request) : M A :=
  h <- get_trace ;;
  emit (EvRequest req) ;;
  match api h req with
  | RespOK body => ret body
  | RespHTTPError code => raise (HTTPError code)
  | RespURLError => raise URLError
  | RespBadBody => raise ValueError
  end.

Definition members_url (team : string) : string :=
  "https://api.heroku.com/teams/" +:+ team +:+ "/members".

Definition member_url (team addr : string) : string :=
  "https://api.heroku.com/teams/" +:+ team +:+ "/members/" +:+ addr.

(** [members], under [functools.lru_cache]: a call that raises caches
    nothing. *)
Definition members (team : string) : M (list raw_member) :=
  s <- get_state ;;
  match members_cache s !! team with
  | Some result => ret result
  | None =>
      headers <- _get_headers ;;
      result <- urlopen (api_members env)
                  (mkRequest GET (members_url team) headers) ;;
      modify_state (λ s, set_members_cache (<[team := result]> (members_cache s)) s) ;;
      ret result
  end.

(** [e.code] of a caught [OSError]. *)
Definition exn_code (e : exn) : M Z :=
  match e with
  | HTTPError code => ret code
  | _ => raise AttributeError
  end.

Definition do_revoke (addr : string) (ctx : Context) : M item :=
  headers <- _get_headers ;;
  try_except
    (j <- urlopen (api_delete env)
            (mkRequest DELETE (member_url (team ctx) addr) headers) ;;
     ret (IJson j))
    is_OSError
    (λ e,
       code <- exn_code e ;;
       if bool_decide (code = 404%Z) then
         ret (IStr (addr +:+ " is not a member of " +:+ team ctx
                    +:+ " (" +:+ pretty code +:+ ")"))
       else
         raise e).

(** The loop body of [all_members]: copy the keys that name a field, then
    classify. *)
Definition account_of_raw (d : raw_member) : Account :=
  let acnt := Account_new in
  let acnt := match raw_email d with
              | Some v => set_email v acnt | None => acnt end in
  let acnt := match raw_federated d with
              | Some v => set_federated v acnt | None => acnt end in
  let acnt := match raw_role d with
              | Some (Some v) => set_role (RoleStr v) acnt
              | Some None => set_role RoleNone acnt
              | None => acnt end in
  let acnt := match raw_two_factor_authentication d with
              | Some v => set_two_factor_authentication v acnt
              | None => acnt end in
  acnt.

Definition build_account (d : raw_member) : M Account :=
  match classify (account_of_raw d) with
  | (acnt, inl _) => ret acnt
  | (_, inr e) => raise e
  end.

(** [all_members], under [functools.lru_cache]. *)
Definition all_members (team : string) : M (list Account) :=
  s <- get_state ;;
  match all_members_cache s !! team with
  | Some result => ret result
  | None =>
      data <- members team ;;
      result <- for_each build_account data ;;
      modify_state
        (λ s, set_all_members_cache (<[team := result]> (all_members_cache s)) s) ;;
      ret result
  end.

Definition member_emails (ctx : Context) : M (list string) :=
  full_info <- all_members (team ctx) ;;
  ret (map email full_info).

Definition is_member (email : string) (ctx : Context) : M bool :=
  (* hack for testing revoking *)
  if endswith email "@example.com" then ret true
  else
    (* real handling *)
    data <- member_emails ctx ;;
    ret (bool_decide (email ∈ data)).

Definition revoke (email : string) (ctx : Context) : M item :=
  b <- is_member email ctx ;;
  if negb b then
    ret (IStr ("FAIL: " +:+ email +:+ " is not a member of " +:+ team ctx))
  else
    do_revoke email ctx.

Definition member_list (ctx : Context) : M (list Account) :=
  everyone <- all_members (team ctx) ;;
  ret (filter (λ acnt, needs_action acnt || all ctx) everyone).

Definition membership_verify (ctx : Context) : M (list string) :=
  for_each
    (λ addr,
       b <- is_member addr ctx ;;
       if b then ret (addr +:+ " is a member of " +:+ team ctx)
       else ret (addr +:+ " is NOT a member of " +:+ team ctx))
    (emails ctx).

(** The body of the loop of [membership_revoke]. *)
Definition membership_revoke_step (ctx : Context) (addr : string) : M item :=
  b <- is_member addr ctx ;;
  if b then
    try_except (revoke addr ctx) is_Exception
      (λ e,
         print (OutRepr e) ;;
         ret (IStr (addr +:+ " failed membership revocation from "
                    +:+ team ctx)))
  else
    ret (IStr (addr +:+ " was NOT a member of " +:+ team ctx)).

Definition membership_revoke (ctx : Context) : M (list item) :=
  for_each (membership_revoke_step ctx) (emails ctx).

(** [context.func(context)] *)
Definition call_handler (ctx : Context) : M (list item) :=
  match func ctx with
  | member_list_cmd => l <- member_list ctx ;; ret (map IAccount l)
  | member_emails_cmd => l <- member_emails ctx ;; ret (map IStr l)
  | membership_verify_cmd => l <- membership_verify ctx ;; ret (map IStr l)
  | membership_revoke_cmd => membership_revoke ctx
  end.

(** [context.func.__name__.split("_")[1]] *)
Definition handler_fname (h : handler) : string :=
  match h with
  | member_list_cmd => "list"
  | member_emails_cmd => "emails"
  | membership_verify_cmd => "verify"
  | membership_revoke_cmd => "revoke"
  end.

(** [r.as_text()]: only an [Account] has the method. *)
Definition item_as_text (r : item) : M string :=
  match r with
  | IAccount a => ret (as_text a)
  | _ => raise AttributeError
  end.

(** An element of ["\n".join(result)] must be a [str]. *)
Definition item_str (r : item) : M string :=
  match r with
  | IStr s | IJson (JStr s) => ret s
  | _ => raise TypeError
  end.

(** [result[0]] *)
Definition first_item (result : list item) : M item :=
  match result with
  | [] => raise IndexError
  | r :: _ => ret r
  end.

Definition is_Account (r : item) : bool :=
  match r with
  | IAccount _ => true
  | _ => false
  end.

(** [main], from the parsed arguments on. *)
Definition main (context : Context) : M unit :=
  login (token context) (team context) ;;
  result <- call_handler context ;;
  print (OutStr ("result of running " +:+ handler_fname (func context))) ;;
  r0 <- first_item result ;;
  output <- (if is_Account r0 then
               texts <- for_each item_as_text result ;;
               ret (join newline texts)
             else
               strs <- for_each item_str result ;;
               ret (join newline strs)) ;;
  (if clip context then
     emit (EvClip output) ;;
     print (OutStr "(also copied to clipboard)")
   else ret tt) ;;
  print (OutStr output).

End Program.

(** ** Notions used in the statements *)

(** The email ends with one of the organizational domains. *)
Definition org_email (e : string) : Prop :=
  ∃ d p, d ∈ Staff_Email_Domains ∧ e = p +:+ d.

(** The email starts with the marker of service accounts. *)
Definition service_prefixed (e : string) : Prop :=
  ∃ r, e = "heroku-" +:+ r.

(** The address is in the domain that [is_member] always accepts. *)
Definition example_address (addr : string) : Prop :=
  ∃ p, addr = p +:+ "@example.com".

(** The request [members] sends for a team, under the token of state [s]. *)
Definition members_request (s : state) (team : string) : request :=
  mkRequest GET (members_url team)
    [ ("Accept", "application/vnd.heroku+json; version=3");
      ("Authorization", "Bearer " +:+ str_token (Heroku_Token s)) ].

(** The request [do_revoke] sends for an address. *)
Definition delete_request (s : state) (team addr : string) : request :=
  mkRequest DELETE (member_url team addr)
    [ ("Accept", "application/vnd.heroku+json; version=3");
      ("Authorization", "Bearer " +:+ str_token (Heroku_Token s)) ].

(** The account a raw record becomes in [all_members]. *)
Definition account_of (d : raw_member) : Account :=
  fst (classify (account_of_raw d)).

(** [roster env s team accts]: in state [s] the member list of [team] is
    [accts], because [all_members] has it cached, or [members] has the raw
    list cached, or the API answers the list request with it whenever it is
    asked. *)
Definition roster (env : environment) (s : state) (team : string)
    (accts : list Account) : Prop :=
  all_members_cache s !! team = Some accts
  ∨ (all_members_cache s !! team = None ∧
     ∃ raws, accts = map account_of raws ∧
       (members_cache s !! team = Some raws
        ∨ (members_cache s !! team = None ∧
           ∀ h, api_members env h (members_request s team) = RespOK raws))).

(** Membership as [is_member] decides it against the list [accts]. *)
Definition member_of (accts : list Account) (addr : string) : bool :=
  endswith addr "@example.com" || bool_decide (addr ∈ map email accts).

(** The event is the DELETE call for [addr] in [team]. *)
Definition is_delete_of (team addr : string) (ev : event) : bool :=
  match ev with
  | EvRequest r =>
      match req_method r with
      | DELETE => String.eqb (req_url r) (member_url team addr)
      | GET => false
      end
  | _ => false
  end.

(** The three kinds of entry [membership_revoke] appends for an address. *)
Definition not_member_entry (ctx : Context) (addr : string) : item :=
  IStr (addr +:+ " was NOT a member of " +:+ team ctx).

Definition failed_entry (ctx : Context) (addr : string) : item :=
  IStr (addr +:+ " failed membership revocation from " +:+ team ctx).

Definition revoked_entry (ctx : Context) (addr : string) (r : item) : Prop :=
  (∃ j, r = IJson j)
  ∨ r = IStr (addr +:+ " is not a member of " +:+ team ctx +:+ " (404)").

(** The entry for [addr] when the member list is [accts]. *)
Definition revoke_entry (ctx : Context) (accts : list Account)
    (addr : string) (r : item) : Prop :=
  if member_of accts addr
  then revoked_entry ctx addr r ∨ r = failed_entry ctx addr
  else r = not_member_entry ctx addr.

(** One entry of the result, whatever the member list. *)
Definition entry_for (ctx : Context) (addr : string) (r : item) : Prop :=
  r = not_member_entry ctx addr ∨ r = failed_entry ctx addr
  ∨ revoked_entry ctx addr r.

(** The membership checks of a batch can be answered: every address is in the
    example domain, or the member list of the team is at hand. *)
Definition member_list_available (env : environment) (s : state)
    (ctx : Context) : Prop :=
  Forall example_address (emails ctx) ∨ ∃ accts, roster env s (team ctx) accts.

(** The world after [print o]. *)
Definition printed (o : out_item) (w : world) : world :=
  {| st := set_stdout (stdout (st w) ++ [o]) (st w); trace := trace w |}.

(** The world after an event. *)
Definition emitted (ev : event) (w : world) : world :=
  {| st := st w; trace := trace w ++ [ev] |}.

(** Every DELETE call among the events [evs] of [team] is for an address
    that satisfies [P]. *)
Definition deletes_within (team : string) (P : string → Prop)
    (evs : list event) : Prop :=
  ∀ ev a, ev ∈ evs → is_delete_of team a ev = true → P a.

(** Two states with the same token and the same caches. *)
Definition same_session (s s' : state) : Prop :=
  Heroku_Token s' = Heroku_Token s ∧ members_cache s' = members_cache s
  ∧ all_members_cache s' = all_members_cache s.

(** ** Sample runs *)

Module Sample.

Definition team_name : string := "mozillacorporation".

(** One compliant staff member. *)
Definition alice : raw_member :=
  {| raw_email := Some "alice@mozilla.com"; raw_federated := Some true;
     raw_role := Some (Some "admin");
     raw_two_factor_authentication := Some false |}.

(** A team with one compliant member, where DELETE answers 404. *)
Definition env_small : environment :=
  {| op_read := λ _ _, inl "tok-A";
     api_members := λ _ _, RespOK [alice];
     api_delete := λ _ _, RespHTTPError 404 |}.

(** The token is refused when listing; DELETE itself would succeed. *)
Definition env_unauthorized : environment :=
  {| op_read := λ _ _, inl "tok-A";
     api_members := λ _ _, RespHTTPError 401;
     api_delete := λ _ _, RespOK (JOther "{}") |}.

(** DELETE is refused with 403. *)
Definition env_forbidden : environment :=
  {| op_read := λ _ _, inl "tok-A";
     api_members := λ _ _, RespOK [alice];
     api_delete := λ _ _, RespHTTPError 403 |}.

(** The secret tool gives a new token on every read after the first. *)
Definition env_rotating : environment :=
  {| op_read := λ h _, match h with [] => inl "tok-A" | _ => inl "tok-B" end;
     api_members := λ _ _, RespOK [alice];
     api_delete := λ _ _, RespHTTPError 404 |}.

Definition ctx_for (f : handler) (addrs : list string) : Context :=
  {| token := Some "tok-A"; team := team_name; clip := false; func := f;
     all := false; emails := addrs |}.

(** The world once [login] has stored a plain token. *)
Definition logged_in : world :=
  {| st := set_Heroku_Token (Some "tok-A") initial_state; trace := [] |}.

Definition secret_ref : string := "op://vault/heroku/token".

(** A service account of the organization with both SSO and 2FA. *)
Definition heroku_ci : Account :=
  set_two_factor_authentication true
    (set_federated true (set_email "heroku-ci@mozilla.com" Account_new)).

(** A batch whose second address needs the member list. *)
Definition ctx_batch : Context :=
  ctx_for membership_revoke_cmd
    ["ghost@example.com"; "bob@mozilla.com"; "eve@example.com"].

End Sample.

(** ** Notions used in the further properties *)

(** [classify] has run on the account. *)
Definition classified (a : Account) : Prop :=
  account_type a ≠ T_UNSET ∧ account_status a ≠ S_UNSET.

(** Every list in the [all_members] cache holds classified accounts only. *)
Definition classified_cache (s : state) : Prop :=
  ∀ team accts, all_members_cache s !! team = Some accts →
                Forall classified accts.

(** The email [all_members] gives a raw record: the key, or the default of
    the dataclass. *)
Definition email_of_raw (d : raw_member) : string :=
  default "" (raw_email d).

(** The event is a DELETE call. *)
Definition is_delete_event (ev : event) : bool :=
  match ev with
  | EvRequest r => match req_method r with DELETE => true | GET => false end
  | _ => false
  end.

(** The DELETE calls among some events, in order. *)
Definition delete_events (evs : list event) : list event :=
  filter (λ ev, is_delete_event ev) evs.

(** The entry of [membership_verify] for an address. *)
Definition verify_entry (ctx : Context) (accts : list Account)
    (addr : string) : string :=
  if member_of accts addr
  then addr +:+ " is a member of " +:+ team ctx
  else addr +:+ " is NOT a member of " +:+ team ctx.

(** [isinstance(r, str)] *)
Definition is_str (r : item) : bool :=
  match r with
  | IStr _ | IJson (JStr _) => true
  | _ => false
  end.


Module Sample2.

(** A team with one member, where DELETE succeeds and answers the record of
    the removed member. *)
Definition env_success : environment :=
  {| op_read := λ _ _, inl "tok-A";
     api_members := λ _ _, RespOK [Sample.alice];
     api_delete := λ _ _, RespOK (JOther "{'email': 'alice@mozilla.com'}") |}.

(** The secret tool fails. *)
Definition env_locked : environment :=
  {| op_read := λ _ _, inr "CalledProcessError(1, ['op', 'read'])";
     api_members := λ _ _, RespOK [Sample.alice];
     api_delete := λ _ _, RespHTTPError 404 |}.

(** The network is down for DELETE. *)
Definition env_offline : environment :=
  {| op_read := λ _ _, inl "tok-A";
     api_members := λ _ _, RespOK [Sample.alice];
     api_delete := λ _ _, RespURLError |}.

(** A record without any of the keys. *)
Definition anonymous : raw_member :=
  {| raw_email := None; raw_federated := None; raw_role := None;
     raw_two_factor_authentication := None |}.

(** A team of two: a compliant member and a record without keys. *)
Definition env_pair : environment :=
  {| op_read := λ _ _, inl "tok-A";
     api_members := λ _ _, RespOK [Sample.alice; anonymous];
     api_delete := λ _ _, RespHTTPError 404 |}.

End Sample2.

(** * Verification *)

(** ** Properties of the string functions *)

Lemma startswith_spec s p :
  startswith s p = true ↔ ∃ r, s = p +:+ r.
Proof.
  revert s. induction p as [|c p IH]; intros s; simpl.
  - split; [intros _; by exists s | done].
  - destruct s as [|d s]; simpl.
    + split; [done | intros [r Hr]; discriminate].
    + rewrite andb_true_iff, IH, Ascii.eqb_eq. split.
      * intros [-> [r ->]]. by exists r.
      * intros [r Hr]. injection Hr as -> ->. eauto.
Qed.

Lemma endswith_nil suf : endswith "" suf = String.eqb "" suf.
Proof. unfold endswith. apply orb_false_r. Qed.

Lemma endswith_cons d s suf :
  endswith (String d s) suf = String.eqb (String d s) suf || endswith s suf.
Proof. reflexivity. Qed.

Lemma endswith_spec s suf :
  endswith s suf = true ↔ ∃ p, s = p +:+ suf.
Proof.
  induction s as [|d s IH].
  - rewrite endswith_nil, String.eqb_eq. split.
    + intros <-. by exists "".
    + intros [[|c p] Hp]; simpl in Hp; [done | discriminate].
  - rewrite endswith_cons, orb_true_iff, IH, String.eqb_eq. split.
    + intros [<- | [p ->]]; [by exists "" | by exists (String d p)].
    + intros [[|c p] Hp]; simpl in Hp; [by left |].
      injection Hp as -> ->. right. eauto.
Qed.

Global Arguments startswith : simpl never.
Global Arguments endswith : simpl never.
Global Arguments endswith_any : simpl never.

(** ** The classifier *)

Lemma endswith_any_org e :
  endswith_any e Staff_Email_Domains = true ↔ org_email e.
Proof.
  unfold endswith_any, org_email. rewrite existsb_exists. split.
  - intros (d & Hin & Hd). apply endswith_spec in Hd as [p Hp].
    exists d, p. by rewrite list_elem_of_In.
  - intros (d & p & Hin & Hp). exists d. rewrite <- list_elem_of_In.
    split; [done |]. apply endswith_spec. eauto.
Qed.

Lemma startswith_service e :
  startswith e "heroku-" = true ↔ service_prefixed e.
Proof. apply startswith_spec. Qed.

Ltac classify_cases a :=
  destruct a as [e f r t ty st na]; unfold fresh, classify in *; simpl in *;
  destruct_and?; subst; simpl;
  destruct (endswith_any e Staff_Email_Domains) eqn:Horg,
           (startswith e "heroku-") eqn:Hsvc, f, t; simpl.

Lemma classify_fresh_returns a :
  fresh a → snd (classify a) = inl tt.
Proof. intros Hf. classify_cases a; reflexivity. Qed.

Lemma classify_returns_fresh a :
  snd (classify a) = inl tt → fresh a.
Proof.
  unfold classify, fresh.
  destruct (account_type a), (account_status a); simpl; try discriminate.
  done.
Qed.

Lemma classify_fresh_eq a :
  fresh a →
  classify a =
    (mkAccount (email a) (federated a) (role a) (two_factor_authentication a)
       (spec_type (email a))
       (spec_status (spec_type (email a)) (federated a)
          (two_factor_authentication a))
       (spec_needs_action (spec_type (email a))
          (spec_status (spec_type (email a)) (federated a)
             (two_factor_authentication a))),
     inl tt).
Proof.
  intros Hf. unfold spec_type.
  classify_cases a; rewrite ?Horg, ?Hsvc; reflexivity.
Qed.

Lemma classify_stale a :
  ¬ fresh a → classify a = (a, inr AssertionError).
Proof.
  unfold fresh, classify.
  destruct (account_type a), (account_status a); simpl; try done.
  intros []. done.
Qed.

(** C1: on a record that has not been classified yet, [classify] returns
    normally and sets the account type from the email alone: an email that
    ends with an organizational domain is SERVICE when it starts with
    "heroku-" and STAFF otherwise; any other email is UNKNOWN when it starts
    with "heroku-" and COMMUNITY otherwise. *)
Theorem classify_account_type (a : Account) (Hf : fresh a) :
  snd (classify a) = inl tt ∧
  let t := account_type (fst (classify a)) in
  (org_email (email a) → service_prefixed (email a) → t = SERVICE) ∧
  (org_email (email a) → ¬ service_prefixed (email a) → t = STAFF) ∧
  (¬ org_email (email a) → service_prefixed (email a) → t = T_UNKNOWN) ∧
  (¬ org_email (email a) → ¬ service_prefixed (email a) → t = COMMUNITY) ∧
  t = spec_type (email a).
Proof.
  rewrite (classify_fresh_eq a Hf). simpl. split; [done |].
  unfold spec_type.
  rewrite <- endswith_any_org, <- startswith_service.
  destruct (endswith_any _ _), (startswith _ _); intuition congruence.
Qed.

(** C2: on a record that has not been classified yet, [classify] sets the
    status by the ordered rules: STAFF and federated is OKAY; COMMUNITY with
    two-factor is OKAY; SERVICE without both federated and two-factor is
    OKAY; every other case is BAD, in particular SERVICE with federated and
    two-factor both set. *)
Theorem classify_account_status (a : Account) (Hf : fresh a) :
  snd (classify a) = inl tt ∧
  let a' := fst (classify a) in
  let t := account_type a' in
  let fed := federated a' in
  let tfa := two_factor_authentication a' in
  fed = federated a ∧ tfa = two_factor_authentication a ∧
  (t = STAFF → fed = true → account_status a' = OKAY) ∧
  (t = COMMUNITY → tfa = true → account_status a' = OKAY) ∧
  (t = SERVICE → ¬ (fed = true ∧ tfa = true) → account_status a' = OKAY) ∧
  (¬ (t = STAFF ∧ fed = true) → ¬ (t = COMMUNITY ∧ tfa = true) →
   ¬ (t = SERVICE ∧ ¬ (fed = true ∧ tfa = true)) →
   account_status a' = BAD) ∧
  (t = SERVICE → fed = true → tfa = true → account_status a' = BAD) ∧
  account_status a' = spec_status t fed tfa.
Proof.
  rewrite (classify_fresh_eq a Hf). simpl. split; [done |].
  destruct (spec_type (email a)), (federated a),
    (two_factor_authentication a); simpl; intuition congruence.
Qed.

(** C3: after [classify] has returned, needs-action is false exactly when
    the type is neither UNKNOWN nor UNSET and the status is OKAY; a record
    of type UNKNOWN needs action whatever its status. *)
Theorem classify_needs_action (a : Account)
    (Hret : snd (classify a) = inl tt) :
  let a' := fst (classify a) in
  (needs_action a' = false ↔
     account_type a' ≠ T_UNKNOWN ∧ account_type a' ≠ T_UNSET ∧
     account_status a' = OKAY) ∧
  (needs_action a' = true ↔
     ¬ (account_type a' ≠ T_UNKNOWN ∧ account_type a' ≠ T_UNSET ∧
        account_status a' = OKAY)) ∧
  (account_type a' = T_UNKNOWN → needs_action a' = true).
Proof.
  apply classify_returns_fresh in Hret.
  rewrite (classify_fresh_eq a Hret). simpl.
  destruct (spec_type (email a)), (federated a),
    (two_factor_authentication a); simpl; intuition congruence.
Qed.

(** C8: the first call of [classify] leaves both account_type and
    account_status different from UNSET, so a second call on the same
    record fails its entry assertion and leaves the record as it is; more
    generally every call on a record whose type is not UNSET raises. *)
Theorem classify_twice_raises (a : Account) (Hf : fresh a) :
  let a' := fst (classify a) in
  snd (classify a) = inl tt ∧
  account_type a' ≠ T_UNSET ∧ account_status a' ≠ S_UNSET ∧
  classify a' = (a', inr AssertionError) ∧
  (∀ b, account_type b ≠ T_UNSET → classify b = (b, inr AssertionError)).
Proof.
  rewrite (classify_fresh_eq a Hf). simpl.
  assert (∀ b, account_type b ≠ T_UNSET →
               classify b = (b, inr AssertionError)) as Hstale.
  { intros b Hb. apply classify_stale. intros [? _]. done. }
  split_and!; try done.
  - destruct (spec_type (email a)) eqn:Ht; try done.
    unfold spec_type in Ht. by repeat case_match.
  - destruct (spec_type (email a)), (federated a),
      (two_factor_authentication a); done.
  - apply Hstale. simpl. unfold spec_type. by repeat case_match.
Qed.

(** ** Computations *)

Lemma bind_returns {A B} (c : M A) (k : A → M B) w w' a :
  c w = (w', inl a) → bind c k w = k a w'.
Proof. unfold bind. by intros ->. Qed.

Lemma bind_raises {A B} (c : M A) (k : A → M B) w w' e :
  c w = (w', inr e) → bind c k w = (w', inr e).
Proof. unfold bind. by intros ->. Qed.

Lemma bind_inv {A B} (c : M A) (k : A → M B) w w2 r :
  bind c k w = (w2, r) →
  (∃ w1 a, c w = (w1, inl a) ∧ k a w1 = (w2, r))
  ∨ (∃ e, c w = (w2, inr e) ∧ r = inr e).
Proof.
  unfold bind. destruct (c w) as [w1 [a | e]]; intros H.
  - left. eauto.
  - right. injection H as <- <-. eauto.
Qed.

Lemma for_each_nil {A B} (f : A → M B) w : for_each f [] w = (w, inl []).
Proof. reflexivity. Qed.

Lemma for_each_cons_returns {A B} (f : A → M B) x l w w1 w2 y ys :
  f x w = (w1, inl y) → for_each f l w1 = (w2, inl ys) →
  for_each f (x :: l) w = (w2, inl (y :: ys)).
Proof.
  intros Hx Hl. simpl. rewrite (bind_returns _ _ _ _ _ Hx).
  by rewrite (bind_returns _ _ _ _ _ Hl).
Qed.

Lemma for_each_cons_inv {A B} (f : A → M B) x l w w2 zs :
  for_each f (x :: l) w = (w2, inl zs) →
  ∃ w1 y ys, f x w = (w1, inl y) ∧ for_each f l w1 = (w2, inl ys)
             ∧ zs = y :: ys.
Proof.
  simpl. intros H.
  apply bind_inv in H as [(w1 & y & Hx & H) | (e & _ & ?)]; [| done].
  apply bind_inv in H as [(w1' & ys & Hl & H) | (e & _ & ?)]; [| done].
  injection H as <- <-. eauto 10.
Qed.

(** A loop that returns has run its body once for every element, in order. *)
Lemma for_each_lookup {A B} (f : A → M B) l w w' ys i x :
  for_each f l w = (w', inl ys) → l !! i = Some x →
  ∃ w1 w2 y, f x w1 = (w2, inl y) ∧ ys !! i = Some y.
Proof.
  revert w ys i. induction l as [|x0 l IH]; intros w ys i Hrun Hi; [done |].
  apply for_each_cons_inv in Hrun as (w1 & y & ys' & Hx & Hl & ->).
  destruct i as [|i]; simpl in *.
  - injection Hi as ->. eauto.
  - eapply IH; eauto.
Qed.

Lemma for_each_length {A B} (f : A → M B) l w w' ys :
  for_each f l w = (w', inl ys) → length ys = length l.
Proof.
  revert w ys. induction l as [|x0 l IH]; intros w ys Hrun.
  - by injection Hrun as <- <-.
  - apply for_each_cons_inv in Hrun as (w1 & y & ys' & Hx & Hl & ->).
    simpl. f_equal. eauto.
Qed.

(** A body that neither fails nor touches the world is a [map]. *)
Lemma for_each_pure {A B} (f : A → M B) (g : A → B) l w :
  (∀ x w, f x w = (w, inl (g x))) → for_each f l w = (w, inl (map g l)).
Proof.
  intros Hf. induction l as [|x l IH]; [done |].
  eapply for_each_cons_returns; eauto.
Qed.

(** Unfold the plumbing of a computation applied to a world. *)
Ltac run :=
  cbv beta iota zeta delta
    [bind ret raise try_except get_state get_trace modify_state emit print
     urlopen _get_headers exn_code emitted printed];
  cbn [st trace fst snd].

Section Properties.

Variable env : environment.

(** ** The API client *)

Lemma get_headers_eq w :
  _get_headers w =
    (w, inl [ ("Accept", "application/vnd.heroku+json; version=3");
              ("Authorization", "Bearer " +:+ str_token (Heroku_Token (st w))) ]).
Proof. reflexivity. Qed.

Lemma world_eta w : {| st := st w; trace := trace w |} = w.
Proof. by destruct w. Qed.

Lemma state_eta s :
  mkState (Heroku_Token s) (members_cache s) (all_members_cache s) (stdout s)
  = s.
Proof. by destruct s. Qed.

(** [do_revoke] in one equation: the call is issued, the state is left as
    it is, and the answer alone decides between a value and an exception. *)
Lemma do_revoke_eq addr ctx w :
  do_revoke env addr ctx w =
    (emitted (EvRequest (delete_request (st w) (team ctx) addr)) w,
     match api_delete env (trace w) (delete_request (st w) (team ctx) addr) with
     | RespOK j => inl (IJson j)
     | RespHTTPError code =>
         if bool_decide (code = 404%Z)
         then inl (IStr (addr +:+ " is not a member of " +:+ team ctx
                         +:+ " (404)"))
         else inr (HTTPError code)
     | RespURLError => inr AttributeError
     | RespBadBody => inr ValueError
     end).
Proof.
  unfold do_revoke, delete_request. run.
  destruct (api_delete env _ _) as [j | code | |]; run; try done.
  case_bool_decide as Hc; run; [| done]. by rewrite Hc.
Qed.

Lemma members_cached team w raws :
  members_cache (st w) !! team = Some raws →
  members env team w = (w, inl raws).
Proof.
  intros H. unfold members. run. by rewrite H.
Qed.

Lemma members_fetch team w :
  members_cache (st w) !! team = None →
  members env team w =
    match api_members env (trace w) (members_request (st w) team) with
    | RespOK raws =>
        ({| st := set_members_cache (<[team := raws]> (members_cache (st w)))
                    (st w);
            trace := trace w ++ [EvRequest (members_request (st w) team)] |},
         inl raws)
    | RespHTTPError code =>
        (emitted (EvRequest (members_request (st w) team)) w,
         inr (HTTPError code))
    | RespURLError =>
        (emitted (EvRequest (members_request (st w) team)) w, inr URLError)
    | RespBadBody =>
        (emitted (EvRequest (members_request (st w) team)) w, inr ValueError)
    end.
Proof.
  intros H.
  unfold members, members_request. run. rewrite H. run.
  by destruct (api_members env _ _).
Qed.

(** ** Building the accounts *)

Lemma account_of_raw_fresh d : fresh (account_of_raw d).
Proof.
  unfold account_of_raw.
  destruct (raw_email d), (raw_federated d), (raw_role d) as [[?|]|],
    (raw_two_factor_authentication d); done.
Qed.

Lemma build_account_eq d w : build_account d w = (w, inl (account_of d)).
Proof.
  unfold build_account, account_of.
  pose proof (classify_fresh_returns _ (account_of_raw_fresh d)) as H.
  destruct (classify (account_of_raw d)) as [a r]. simpl in *. by subst r.
Qed.

Lemma for_each_build raws w :
  for_each build_account raws w = (w, inl (map account_of raws)).
Proof. apply for_each_pure, build_account_eq. Qed.

(** ** Member list and membership *)

Lemma same_session_refl s : same_session s s.
Proof. done. Qed.

Lemma roster_same_session s s' team accts :
  same_session s s' → roster env s team accts → roster env s' team accts.
Proof.
  intros (Ht & Hm & Ha). unfold roster, members_request.
  by rewrite Ht, Hm, Ha.
Qed.

Lemma deletes_within_nil team P : deletes_within team P [].
Proof. intros ev a Hin. by apply elem_of_nil in Hin. Qed.

Lemma deletes_within_app team P evs1 evs2 :
  deletes_within team P evs1 → deletes_within team P evs2 →
  deletes_within team P (evs1 ++ evs2).
Proof.
  intros H1 H2 ev a Hin. apply elem_of_app in Hin as [Hin | Hin]; eauto.
Qed.

Lemma deletes_within_weaken team (P Q : string → Prop) evs :
  (∀ a, P a → Q a) → deletes_within team P evs → deletes_within team Q evs.
Proof. intros HPQ H ev a Hin Hd. eauto. Qed.

Lemma deletes_within_get team P s t :
  deletes_within team P [EvRequest (members_request s t)].
Proof. intros ev a Hin. apply list_elem_of_singleton in Hin as ->. done. Qed.

Lemma member_url_inj team a b : member_url team a = member_url team b → a = b.
Proof.
  unfold member_url. intros H.
  by repeat (apply (inj (String.app _)) in H).
Qed.

Lemma deletes_within_delete team (P : string → Prop) s addr :
  P addr → deletes_within team P [EvRequest (delete_request s team addr)].
Proof.
  intros HP ev a Hin. apply list_elem_of_singleton in Hin as ->.
  unfold is_delete_of, delete_request. cbn [req_method req_url].
  intros Heq%String.eqb_eq%member_url_inj. by subst.
Qed.

(** On a cache miss [all_members] stores what it built from [members]. *)
Lemma all_members_miss team w :
  all_members_cache (st w) !! team = None →
  all_members env team w =
    match members env team w with
    | (w1, inl raws) =>
        ({| st := set_all_members_cache
                    (<[team := map account_of raws]> (all_members_cache (st w1)))
                    (st w1);
            trace := trace w1 |},
         inl (map account_of raws))
    | (w1, inr e) => (w1, inr e)
    end.
Proof.
  intros H. unfold all_members. run. rewrite H. run.
  destruct (members env team w) as [w1 [raws | e]]; [| done].
  rewrite for_each_build. by run.
Qed.

Lemma all_members_hit team w accts :
  all_members_cache (st w) !! team = Some accts →
  all_members env team w = (w, inl accts).
Proof. intros H. unfold all_members. run. by rewrite H. Qed.

(** With the member list at hand [all_members] returns it, issues no DELETE
    call, and leaves it cached. *)
Lemma all_members_roster team w accts :
  roster env (st w) team accts →
  ∃ w' evs,
    all_members env team w = (w', inl accts)
    ∧ all_members_cache (st w') !! team = Some accts
    ∧ trace w' = trace w ++ evs
    ∧ ∀ t P, deletes_within t P evs.
Proof.
  intros [Hhit | (Hmiss & raws & -> & Hraw)].
  - exists w, []. rewrite (all_members_hit _ _ _ Hhit).
    rewrite app_nil_r. eauto using deletes_within_nil.
  - rewrite all_members_miss by done.
    destruct Hraw as [Hc | (Hc & Hapi)].
    + rewrite (members_cached _ _ _ Hc). eexists _, [].
      split; [reflexivity |]. simpl.
      rewrite lookup_insert_eq, app_nil_r. eauto using deletes_within_nil.
    + rewrite members_fetch, Hapi by done.
      eexists _, _. split; [reflexivity |]. simpl.
      rewrite lookup_insert_eq. eauto using deletes_within_get.
Qed.

Lemma is_member_example addr ctx w :
  endswith addr "@example.com" = true →
  is_member env addr ctx w = (w, inl true).
Proof. intros H. unfold is_member. by rewrite H. Qed.

Lemma is_member_roster addr ctx w accts :
  roster env (st w) (team ctx) accts →
  ∃ w' evs,
    is_member env addr ctx w = (w', inl (member_of accts addr))
    ∧ roster env (st w') (team ctx) accts
    ∧ trace w' = trace w ++ evs
    ∧ ∀ t P, deletes_within t P evs.
Proof.
  intros Hr. unfold is_member, member_of.
  destruct (endswith addr "@example.com") eqn:Hex.
  - exists w, []. rewrite app_nil_r. eauto using deletes_within_nil.
  - destruct (all_members_roster _ _ _ Hr) as (w' & evs & Hall & Hc & Ht & Hd).
    exists w', evs. unfold member_emails. run. rewrite Hall. run.
    split_and!; try done. by left.
Qed.

(** ** Revoking *)

(** What [do_revoke] raises is always caught by [except Exception]. *)
Lemma do_revoke_raises addr ctx w w' e :
  do_revoke env addr ctx w = (w', inr e) → is_Exception e = true.
Proof.
  rewrite do_revoke_eq. intros H. injection H as _ H.
  destruct (api_delete env _ _); try case_bool_decide; by simplify_eq.
Qed.

Lemma do_revoke_entry addr ctx w w' r :
  do_revoke env addr ctx w = (w', inl r) → revoked_entry ctx addr r.
Proof.
  rewrite do_revoke_eq. intros H. injection H as _ H. unfold revoked_entry.
  destruct (api_delete env _ _); try case_bool_decide; simplify_eq; eauto.
Qed.

Lemma revoke_member addr ctx w w1 :
  is_member env addr ctx w = (w1, inl true) →
  revoke env addr ctx w = do_revoke env addr ctx w1.
Proof. intros H. unfold revoke. by rewrite (bind_returns _ _ _ _ _ H). Qed.

(** The loop body for an address that both membership checks accept: the
    DELETE call is issued once, and whatever it gives becomes an entry. *)
Lemma step_member ctx addr w w1 w2 :
  is_member env addr ctx w = (w1, inl true) →
  is_member env addr ctx w1 = (w2, inl true) →
  ∃ w3 r,
    membership_revoke_step env ctx addr w = (w3, inl r)
    ∧ (revoked_entry ctx addr r ∨ r = failed_entry ctx addr)
    ∧ same_session (st w2) (st w3)
    ∧ trace w3 = trace w2 ++ [EvRequest (delete_request (st w2) (team ctx) addr)].
Proof.
  intros H1 H2. unfold membership_revoke_step.
  rewrite (bind_returns _ _ _ _ _ H1). unfold try_except.
  rewrite (revoke_member _ _ _ _ H2).
  destruct (do_revoke env addr ctx w2) as [w3 [r | e]] eqn:Hdo.
  - exists w3, r. split; [done |].
    split; [left; eauto using do_revoke_entry |].
    rewrite do_revoke_eq in Hdo. injection Hdo as <- _. done.
  - rewrite (do_revoke_raises _ _ _ _ _ Hdo). run.
    eexists _, _. split; [reflexivity |]. split; [by right |].
    rewrite do_revoke_eq in Hdo. injection Hdo as <- _. done.
Qed.

Lemma step_not_member ctx addr w w1 :
  is_member env addr ctx w = (w1, inl false) →
  membership_revoke_step env ctx addr w = (w1, inl (not_member_entry ctx addr)).
Proof.
  intros H. unfold membership_revoke_step.
  by rewrite (bind_returns _ _ _ _ _ H).
Qed.

(** An exception of [revoke] becomes the failure entry of the address. *)
Lemma step_catches ctx addr w w1 w2 e :
  is_member env addr ctx w = (w1, inl true) →
  revoke env addr ctx w1 = (w2, inr e) →
  is_Exception e = true →
  membership_revoke_step env ctx addr w
  = (printed (OutRepr e) w2, inl (failed_entry ctx addr)).
Proof.
  intros H1 H2 He. unfold membership_revoke_step.
  rewrite (bind_returns _ _ _ _ _ H1). unfold try_except.
  rewrite H2, He. by run.
Qed.

Lemma step_roster ctx addr w accts :
  roster env (st w) (team ctx) accts →
  ∃ w' r evs,
    membership_revoke_step env ctx addr w = (w', inl r)
    ∧ roster env (st w') (team ctx) accts
    ∧ revoke_entry ctx accts addr r
    ∧ trace w' = trace w ++ evs
    ∧ deletes_within (team ctx)
        (λ a, a = addr ∧ member_of accts addr = true) evs.
Proof.
  intros Hr.
  destruct (is_member_roster addr ctx w accts Hr)
    as (w1 & evs1 & H1 & Hr1 & Ht1 & Hd1).
  unfold revoke_entry. destruct (member_of accts addr) eqn:Hm.
  - destruct (is_member_roster addr ctx w1 accts Hr1)
      as (w2 & evs2 & H2 & Hr2 & Ht2 & Hd2).
    rewrite Hm in H2.
    destruct (step_member ctx addr w w1 w2 H1 H2)
      as (w3 & r & Hstep & Hentry & Hsame & Ht3).
    exists w3, r, (evs1 ++ evs2 ++ [EvRequest (delete_request (st w2) (team ctx) addr)]).
    split_and!; try done.
    + eauto using roster_same_session.
    + rewrite Ht3, Ht2, Ht1. by rewrite <- !app_assoc.
    + repeat apply deletes_within_app; try done.
      by apply deletes_within_delete.
  - exists w1, (not_member_entry ctx addr), evs1.
    split_and!; try done. by apply step_not_member.
Qed.

Lemma step_example ctx addr w :
  endswith addr "@example.com" = true →
  ∃ w' r,
    membership_revoke_step env ctx addr w = (w', inl r)
    ∧ (revoked_entry ctx addr r ∨ r = failed_entry ctx addr).
Proof.
  intros Hex.
  destruct (step_member ctx addr w w w) as (w3 & r & Hstep & Hentry & _);
    eauto using is_member_example.
Qed.

(** The whole batch, with the member list at hand. *)
Lemma revoke_loop_roster ctx accts l w :
  roster env (st w) (team ctx) accts →
  ∃ w' status evs,
    for_each (membership_revoke_step env ctx) l w = (w', inl status)
    ∧ roster env (st w') (team ctx) accts
    ∧ Forall2 (revoke_entry ctx accts) l status
    ∧ trace w' = trace w ++ evs
    ∧ deletes_within (team ctx)
        (λ a, a ∈ l ∧ member_of accts a = true) evs.
Proof.
  revert w. induction l as [|addr l IH]; intros w Hr.
  - exists w, [], []. rewrite app_nil_r.
    split_and!; try done. apply deletes_within_nil.
  - destruct (step_roster ctx addr w accts Hr)
      as (w1 & r & evs1 & Hstep & Hr1 & Hentry & Ht1 & Hd1).
    destruct (IH w1 Hr1) as (w2 & status & evs2 & Hloop & Hr2 & Hall & Ht2 & Hd2).
    exists w2, (r :: status), (evs1 ++ evs2).
    split_and!; try done.
    + eauto using for_each_cons_returns.
    + by constructor.
    + rewrite Ht2, Ht1. by rewrite <- app_assoc.
    + apply deletes_within_app.
      * eapply deletes_within_weaken; [| exact Hd1].
        intros a [-> ?]. split; [left | done].
      * eapply deletes_within_weaken; [| exact Hd2].
        intros a [? ?]. split; [by right | done].
Qed.

(** The whole batch, when every address is in the example domain. *)
Lemma revoke_loop_examples ctx l w :
  Forall (λ addr, endswith addr "@example.com" = true) l →
  ∃ w' status,
    for_each (membership_revoke_step env ctx) l w = (w', inl status)
    ∧ Forall2 (λ addr r, revoked_entry ctx addr r ∨ r = failed_entry ctx addr)
        l status.
Proof.
  intros Hall. revert w. induction Hall as [|addr l Hex _ IH]; intros w.
  - by exists w, [].
  - destruct (step_example ctx addr w Hex) as (w1 & r & Hstep & Hentry).
    destruct (IH w1) as (w2 & status & Hloop & Hrest).
    exists w2, (r :: status). split; [| by constructor].
    eauto using for_each_cons_returns.
Qed.

Lemma example_address_endswith addr :
  example_address addr ↔ endswith addr "@example.com" = true.
Proof. symmetry. apply endswith_spec. Qed.

Lemma members_raises team w w' e :
  members env team w = (w', inr e) → is_Exception e = true.
Proof.
  destruct (members_cache (st w) !! team) as [raws |] eqn:Hc.
  - by rewrite (members_cached _ _ _ Hc).
  - rewrite members_fetch by done.
    destruct (api_members env _ _); intros H; by simplify_eq.
Qed.

Lemma is_member_raises addr ctx w w' e :
  is_member env addr ctx w = (w', inr e) → is_Exception e = true.
Proof.
  unfold is_member. destruct (endswith addr "@example.com"); [done |].
  unfold member_emails. run.
  destruct (all_members_cache (st w) !! team ctx) as [accts |] eqn:Hc.
  - by rewrite (all_members_hit _ _ _ Hc).
  - rewrite all_members_miss by done.
    destruct (members env (team ctx) w) as [w1 [raws | e1]] eqn:Hm; [done |].
    intros H. simplify_eq. eauto using members_raises.
Qed.

Lemma revoke_raises addr ctx w w' e :
  revoke env addr ctx w = (w', inr e) → is_Exception e = true.
Proof.
  unfold revoke. intros H.
  apply bind_inv in H as [(w1 & b & Hb & H) | (e1 & H & ?)].
  - destruct b; simpl in H; [| done]. eauto using do_revoke_raises.
  - simplify_eq. eauto using is_member_raises.
Qed.

(** ** The claims about the program *)

(** C4: when the DELETE call of [do_revoke] is answered by an HTTP error,
    code 404 is returned as the text "<addr> is not a member of <team>
    (404)", and every other code is raised again as the same HTTP error,
    which [revoke], the caller, lets through; in both cases the program
    state (token, caches, output) is what it was before the call. *)
Theorem do_revoke_http_error (addr : string) (ctx : Context) (w : world)
    (code : Z)
    (Hresp : api_delete env (trace w) (delete_request (st w) (team ctx) addr)
             = RespHTTPError code) :
  let w' := emitted (EvRequest (delete_request (st w) (team ctx) addr)) w in
  st w' = st w ∧
  (code = 404%Z →
   do_revoke env addr ctx w
   = (w', inl (IStr (addr +:+ " is not a member of " +:+ team ctx
                     +:+ " (404)")))) ∧
  (code ≠ 404%Z →
   do_revoke env addr ctx w = (w', inr (HTTPError code)) ∧
   ∀ w0, is_member env addr ctx w0 = (w, inl true) →
         revoke env addr ctx w0 = (w', inr (HTTPError code))).
Proof.
  simpl. split; [done |]. rewrite do_revoke_eq, Hresp. split.
  - intros ->. done.
  - intros Hne. rewrite bool_decide_eq_false_2 by done. split; [done |].
    intros w0 Hm. rewrite (revoke_member _ _ _ _ Hm).
    rewrite do_revoke_eq, Hresp. by rewrite bool_decide_eq_false_2.
Qed.

(** C5 (amended): when the membership checks of the batch can be answered
    (every address is in the example domain, or the member list of the team
    is cached or can be fetched), [membership_revoke] returns one entry per
    input email in input order; and an exception raised by [revoke] for an
    address is always caught and replaced by the failure entry naming that
    address. *)
Theorem membership_revoke_one_entry_each (ctx : Context) (w : world)
    (Hlist : member_list_available env (st w) ctx) :
  (∃ w' status,
     membership_revoke env ctx w = (w', inl status)
     ∧ length status = length (emails ctx)
     ∧ Forall2 (entry_for ctx) (emails ctx) status)
  ∧ (∀ addr w0 w1 w2 e,
       is_member env addr ctx w0 = (w1, inl true) →
       revoke env addr ctx w1 = (w2, inr e) →
       membership_revoke_step env ctx addr w0
       = (printed (OutRepr e) w2, inl (failed_entry ctx addr))).
Proof.
  split.
  - unfold membership_revoke. destruct Hlist as [Hex | [accts Hr]].
    + destruct (revoke_loop_examples ctx (emails ctx) w) as (w' & status & Hrun & Hall).
      { eapply Forall_impl; [exact Hex |]. intros a. apply example_address_endswith. }
      exists w', status. split_and!; try done.
      * eauto using for_each_length.
      * eapply Forall2_impl; [exact Hall |]. unfold entry_for. tauto.
    + destruct (revoke_loop_roster ctx accts (emails ctx) w Hr)
        as (w' & status & evs & Hrun & _ & Hall & _).
      exists w', status. split_and!; try done.
      * eauto using for_each_length.
      * eapply Forall2_impl; [exact Hall |]. unfold entry_for, revoke_entry.
        intros a r. destruct (member_of accts a); tauto.
  - intros addr w0 w1 w2 e H1 H2.
    eauto using step_catches, revoke_raises.
Qed.

(** C6: with the member list of the team at hand, an address that is
    neither in the example domain nor in the list gets the entry "<addr> was
    NOT a member of <team>" at each of its positions, and none of the calls
    [membership_revoke] issues is the DELETE call for that address. *)
Theorem membership_revoke_skips_non_member (ctx : Context) (w : world)
    (accts : list Account) (addr : string)
    (Hroster : roster env (st w) (team ctx) accts)
    (Hex : ¬ example_address addr)
    (Hnot : addr ∉ map email accts) :
  ∃ w' status evs,
    membership_revoke env ctx w = (w', inl status)
    ∧ length status = length (emails ctx)
    ∧ (∀ i, emails ctx !! i = Some addr →
            status !! i = Some (not_member_entry ctx addr))
    ∧ trace w' = trace w ++ evs
    ∧ ∀ ev, ev ∈ evs → is_delete_of (team ctx) addr ev = false.
Proof.
  assert (member_of accts addr = false) as Hm.
  { unfold member_of. rewrite example_address_endswith in Hex.
    apply not_true_is_false in Hex. rewrite Hex.
    by rewrite bool_decide_eq_false_2. }
  destruct (revoke_loop_roster ctx accts (emails ctx) w Hroster)
    as (w' & status & evs & Hrun & _ & Hall & Ht & Hd).
  exists w', status, evs. split_and!; try done.
  - eauto using for_each_length.
  - intros i Hi.
    destruct (Forall2_lookup_l _ _ _ _ _ Hall Hi) as (r & Hr & Hentry).
    unfold revoke_entry in Hentry. rewrite Hm in Hentry. by subst r.
  - intros ev Hin. destruct (is_delete_of (team ctx) addr ev) eqn:Hdel; [| done].
    destruct (Hd ev addr Hin Hdel) as [_ Hyes]. congruence.
Qed.

(** C7: an address that ends with "@example.com" is a member for
    [is_member] in every world, whatever the caches and the API hold and
    without any call; so every list [membership_verify] returns has
    "<addr> is a member of <team>" at the positions of that address, and on
    a batch of such addresses [membership_verify] returns exactly these
    entries. *)
Theorem example_address_is_member (ctx : Context) (addr : string)
    (Hex : example_address addr) :
  (∀ w, is_member env addr ctx w = (w, inl true))
  ∧ (∀ w w' status i,
       membership_verify env ctx w = (w', inl status) →
       emails ctx !! i = Some addr →
       status !! i = Some (addr +:+ " is a member of " +:+ team ctx))
  ∧ (∀ w, Forall example_address (emails ctx) →
          membership_verify env ctx w
          = (w, inl (map (λ a, a +:+ " is a member of " +:+ team ctx)
                         (emails ctx)))).
Proof.
  apply example_address_endswith in Hex. split_and!.
  - intros w. by apply is_member_example.
  - intros w w' status i Hrun Hi. unfold membership_verify in Hrun.
    destruct (for_each_lookup _ _ _ _ _ _ _ Hrun Hi) as (w1 & w2 & y & Hy & Hs).
    rewrite (bind_returns _ _ _ _ _ (is_member_example addr ctx w1 Hex)) in Hy.
    unfold ret in Hy. by simplify_eq.
  - intros w Hall. unfold membership_verify.
    induction Hall as [|a l Ha _ IH]; [done |].
    apply example_address_endswith in Ha.
    eapply for_each_cons_returns; [| exact IH].
    by rewrite (bind_returns _ _ _ _ _ (is_member_example a ctx w Ha)).
Qed.

(** ** The front end *)

Lemma login_plain tok team w :
  startswith tok "op://" = false →
  login env (Some tok) team w
  = ({| st := set_Heroku_Token (Some tok) (st w); trace := trace w |}, inl tt).
Proof.
  intros H. unfold login. run.
  destruct (truthy (Heroku_Token (st w))); run; rewrite H; by run.
Qed.

(** [login] reads the secret whenever the token is a reference, whatever
    token is stored already. *)
Lemma login_reference ref team w :
  startswith ref "op://" = true →
  login env (Some ref) team w
  = match op_read env (trace w) ref with
    | inl out =>
        ({| st := set_Heroku_Token (Some out) (st w);
            trace := trace w ++ [EvOp ref] |}, inl tt)
    | inr repr_e =>
        (emitted (EvOp ref) w,
         inr (SystemExit ("failed to retrieve token from `op`: " +:+ repr_e)))
    end.
Proof.
  intros H. unfold login, run_op. run.
  destruct (truthy (Heroku_Token (st w))); run; rewrite H; run;
    by destruct (op_read env _ _).
Qed.

Lemma member_list_roster ctx w accts :
  roster env (st w) (team ctx) accts →
  ∃ w', member_list env ctx w
        = (w', inl (filter (λ acnt, needs_action acnt || all ctx) accts)).
Proof.
  intros Hr. destruct (all_members_roster _ _ _ Hr) as (w' & evs & Hall & _).
  exists w'. unfold member_list. by rewrite (bind_returns _ _ _ _ _ Hall).
Qed.

Lemma no_action_filter accts :
  Forall (λ a, needs_action a = false) accts →
  filter (λ acnt, needs_action acnt || false) accts = [].
Proof.
  induction 1 as [|a l Ha _ IH]; [done |].
  rewrite filter_cons, IH. by rewrite Ha.
Qed.

(** C10: when the handler returns an empty list, [main] prints its heading
    and then raises [IndexError] at [result[0]]: nothing of the output step
    runs.  The [list] command without --all returns the empty list on a team
    where no account needs action. *)
Theorem main_empty_result_raises (ctx : Context) (w w1 w2 : world)
    (Hlogin : login env (token ctx) (team ctx) w = (w1, inl tt))
    (Hempty : call_handler env ctx w1 = (w2, inl [])) :
  main env ctx w
  = (printed (OutStr ("result of running " +:+ handler_fname (func ctx))) w2,
     inr IndexError)
  ∧ (∀ accts,
       func ctx = member_list_cmd → all ctx = false →
       roster env (st w1) (team ctx) accts →
       Forall (λ a, needs_action a = false) accts →
       ∃ w3, call_handler env ctx w1 = (w3, inl [])).
Proof.
  split.
  - unfold main. rewrite (bind_returns _ _ _ _ _ Hlogin).
    rewrite (bind_returns _ _ _ _ _ Hempty). by run.
  - intros accts Hf Hall Hr Hok. unfold call_handler. rewrite Hf.
    destruct (member_list_roster ctx w1 accts Hr) as (w3 & Hl).
    exists w3. rewrite (bind_returns _ _ _ _ _ Hl). run.
    by rewrite Hall, (no_action_filter _ Hok).
Qed.

End Properties.

(** ** The credential resolver *)

(** C9: a second [login] with a secret reference runs the secret tool again
    although a token is stored, and replaces the stored token by what the
    tool gives this time: the "already done" branch of [login] does not
    return. *)
Theorem login_again_reads_secret :
  ∃ w1 w2,
    login Sample.env_rotating (Some Sample.secret_ref) Sample.team_name
      initial_world = (w1, inl tt)
    ∧ login Sample.env_rotating (Some Sample.secret_ref) Sample.team_name w1
      = (w2, inl tt)
    ∧ Heroku_Token (st w1) = Some "tok-A"
    ∧ trace w1 = [EvOp Sample.secret_ref]
    ∧ Heroku_Token (st w2) = Some "tok-B"
    ∧ trace w2 = [EvOp Sample.secret_ref; EvOp Sample.secret_ref].
Proof. eexists _, _. split_and!; reflexivity. Qed.

(** ** Sample runs of the claims *)

(** The batch of C5 as the claim states it: the member list cannot be
    fetched, the check of the second address raises outside the [try], and
    [membership_revoke] returns no list at all, after the DELETE call for
    the first address has been issued. *)
Lemma membership_revoke_aborted_by_listing :
  snd (membership_revoke Sample.env_unauthorized Sample.ctx_batch
         Sample.logged_in) = inr (HTTPError 401)
  ∧ trace (fst (membership_revoke Sample.env_unauthorized Sample.ctx_batch
                  Sample.logged_in))
    = [ EvRequest (delete_request (st Sample.logged_in) Sample.team_name
                     "ghost@example.com");
        EvRequest (members_request (st Sample.logged_in) Sample.team_name) ]
  ∧ ¬ ∃ w' status,
        membership_revoke Sample.env_unauthorized Sample.ctx_batch
          Sample.logged_in = (w', inl status)
        ∧ length status = length (emails Sample.ctx_batch).
Proof.
  assert (snd (membership_revoke Sample.env_unauthorized Sample.ctx_batch
                 Sample.logged_in) = inr (HTTPError 401)) as H
    by (vm_compute; reflexivity).
  split; [exact H |]. split; [vm_compute; reflexivity |].
  intros (w' & status & Hrun & _). rewrite Hrun in H. discriminate H.
Qed.

(** The scenarios of the specification. *)
Example scenario_staff :
  let a := fst (classify (account_of_raw
             (mkRaw (Some "a@mozilla.com") (Some true) (Some (Some "admin"))
                    (Some false)))) in
  account_type a = STAFF ∧ account_status a = OKAY ∧ needs_action a = false
  ∧ as_text a
    = "okay: a@mozilla.com is a STAFF account with admin permissions.".
Proof. repeat split. Qed.

Example scenario_service :
  let a := fst (classify Sample.heroku_ci) in
  account_type a = SERVICE ∧ account_status a = BAD ∧ needs_action a = true.
Proof. repeat split. Qed.

Example scenario_community :
  let a := fst (classify (account_of_raw
             (mkRaw (Some "user@gmail.com") (Some false) None (Some true)))) in
  account_type a = COMMUNITY ∧ account_status a = OKAY
  ∧ needs_action a = false.
Proof. repeat split. Qed.

Lemma classify_account_type_witness :
  fresh Sample.heroku_ci
  ∧ snd (classify Sample.heroku_ci) = inl tt
  ∧ account_type (fst (classify Sample.heroku_ci)) = SERVICE.
Proof.
  assert (fresh Sample.heroku_ci) as Hf by (split; reflexivity).
  split; [exact Hf |].
  destruct (classify_account_type Sample.heroku_ci Hf) as (Hret & Hsvc & _).
  split; [exact Hret |]. apply Hsvc.
  - exists "@mozilla.com", "heroku-ci". split; [| reflexivity].
    apply list_elem_of_here.
  - exists "ci@mozilla.com". reflexivity.
Defined.

Lemma classify_account_status_witness :
  fresh Sample.heroku_ci
  ∧ account_status (fst (classify Sample.heroku_ci)) = BAD.
Proof.
  assert (fresh Sample.heroku_ci) as Hf by (split; reflexivity).
  split; [exact Hf |].
  destruct (classify_account_status Sample.heroku_ci Hf)
    as (_ & _ & _ & _ & _ & _ & _ & Hbad & _).
  apply Hbad; reflexivity.
Defined.

Lemma classify_needs_action_witness :
  snd (classify Sample.heroku_ci) = inl tt
  ∧ needs_action (fst (classify Sample.heroku_ci)) = true.
Proof.
  assert (snd (classify Sample.heroku_ci) = inl tt) as Hret by reflexivity.
  split; [exact Hret |].
  destruct (classify_needs_action Sample.heroku_ci Hret) as (_ & Htrue & _).
  apply Htrue. intros (_ & _ & Hokay). vm_compute in Hokay. discriminate Hokay.
Defined.

Lemma classify_twice_raises_witness :
  fresh Sample.heroku_ci
  ∧ classify (fst (classify Sample.heroku_ci))
    = (fst (classify Sample.heroku_ci), inr AssertionError).
Proof.
  assert (fresh Sample.heroku_ci) as Hf by (split; reflexivity).
  split; [exact Hf |].
  destruct (classify_twice_raises Sample.heroku_ci Hf) as (_ & _ & _ & H & _).
  exact H.
Defined.

Lemma do_revoke_http_error_witness :
  api_delete Sample.env_forbidden (trace Sample.logged_in)
    (delete_request (st Sample.logged_in) Sample.team_name "bob@mozilla.com")
  = RespHTTPError 403
  ∧ snd (do_revoke Sample.env_forbidden "bob@mozilla.com"
           (Sample.ctx_for membership_revoke_cmd ["bob@mozilla.com"])
           Sample.logged_in) = inr (HTTPError 403).
Proof.
  split; [reflexivity |].
  destruct (do_revoke_http_error Sample.env_forbidden "bob@mozilla.com"
              (Sample.ctx_for membership_revoke_cmd ["bob@mozilla.com"])
              Sample.logged_in 403 eq_refl) as (_ & _ & Hother).
  destruct Hother as [Hraise _]; [discriminate |].
  rewrite Hraise. reflexivity.
Defined.

Lemma roster_small_team :
  roster Sample.env_small (st Sample.logged_in) Sample.team_name
    [account_of Sample.alice].
Proof.
  right. split; [reflexivity |]. exists [Sample.alice].
  split; [reflexivity |]. right. split; [reflexivity |].
  intros h. reflexivity.
Defined.

Lemma membership_revoke_one_entry_each_witness :
  member_list_available Sample.env_small (st Sample.logged_in)
    (Sample.ctx_for membership_revoke_cmd
       ["alice@mozilla.com"; "ghost@nowhere.test"])
  ∧ ∃ w' status,
      membership_revoke Sample.env_small
        (Sample.ctx_for membership_revoke_cmd
           ["alice@mozilla.com"; "ghost@nowhere.test"])
        Sample.logged_in = (w', inl status)
      ∧ length status = 2.
Proof.
  assert (member_list_available Sample.env_small (st Sample.logged_in)
            (Sample.ctx_for membership_revoke_cmd
               ["alice@mozilla.com"; "ghost@nowhere.test"])) as Hlist.
  { right. exists [account_of Sample.alice]. exact roster_small_team. }
  split; [exact Hlist |].
  destruct (membership_revoke_one_entry_each Sample.env_small _ _ Hlist)
    as [(w' & status & Hrun & Hlen & _) _].
  exists w', status. split; [exact Hrun | exact Hlen].
Defined.

Lemma ghost_not_example : ¬ example_address "ghost@nowhere.test".
Proof.
  intros H. apply example_address_endswith in H.
  vm_compute in H. discriminate H.
Defined.

Lemma ghost_not_listed :
  "ghost@nowhere.test" ∉ map email [account_of Sample.alice].
Proof.
  intros H. apply list_elem_of_singleton in H.
  vm_compute in H. discriminate H.
Defined.

Lemma membership_revoke_skips_non_member_witness :
  roster Sample.env_small (st Sample.logged_in) Sample.team_name
    [account_of Sample.alice]
  ∧ ¬ example_address "ghost@nowhere.test"
  ∧ ("ghost@nowhere.test" ∉ map email [account_of Sample.alice])
  ∧ ∃ w' status evs,
      membership_revoke Sample.env_small
        (Sample.ctx_for membership_revoke_cmd ["ghost@nowhere.test"])
        Sample.logged_in = (w', inl status)
      ∧ status !! 0 = Some (IStr
          "ghost@nowhere.test was NOT a member of mozillacorporation")
      ∧ trace w' = trace Sample.logged_in ++ evs
      ∧ ∀ ev, ev ∈ evs →
              is_delete_of Sample.team_name "ghost@nowhere.test" ev = false.
Proof.
  split; [exact roster_small_team |].
  split; [exact ghost_not_example |].
  split; [exact ghost_not_listed |].
  destruct (membership_revoke_skips_non_member Sample.env_small
              (Sample.ctx_for membership_revoke_cmd ["ghost@nowhere.test"])
              Sample.logged_in [account_of Sample.alice] "ghost@nowhere.test"
              roster_small_team ghost_not_example ghost_not_listed)
    as (w' & status & evs & Hrun & _ & Hentry & Ht & Hd).
  exists w', status, evs. split; [exact Hrun |].
  split; [exact (Hentry 0 eq_refl) |]. split; [exact Ht | exact Hd].
Defined.

Lemma example_address_is_member_witness :
  example_address "ghost@example.com"
  ∧ is_member Sample.env_unauthorized "ghost@example.com"
      (Sample.ctx_for membership_verify_cmd ["ghost@example.com"])
      initial_world = (initial_world, inl true)
  ∧ membership_verify Sample.env_unauthorized
      (Sample.ctx_for membership_verify_cmd ["ghost@example.com"])
      initial_world
    = (initial_world,
       inl ["ghost@example.com is a member of mozillacorporation"]).
Proof.
  assert (example_address "ghost@example.com") as Hex
    by (exists "ghost"; reflexivity).
  split; [exact Hex |].
  destruct (example_address_is_member Sample.env_unauthorized
              (Sample.ctx_for membership_verify_cmd ["ghost@example.com"])
              "ghost@example.com" Hex) as (Hmem & _ & Hverify).
  split; [exact (Hmem initial_world) |].
  apply (Hverify initial_world). repeat constructor. exact Hex.
Defined.

Lemma main_empty_result_raises_witness :
  let ctx := Sample.ctx_for member_list_cmd [] in
  let w2 := fst (call_handler Sample.env_small ctx Sample.logged_in) in
  login Sample.env_small (token ctx) (team ctx) initial_world
  = (Sample.logged_in, inl tt)
  ∧ call_handler Sample.env_small ctx Sample.logged_in = (w2, inl [])
  ∧ snd (main Sample.env_small ctx initial_world) = inr IndexError.
Proof.
  intros ctx w2.
  assert (login Sample.env_small (token ctx) (team ctx) initial_world
          = (Sample.logged_in, inl tt)) as Hlogin by reflexivity.
  assert (call_handler Sample.env_small ctx Sample.logged_in = (w2, inl []))
    as Hempty by (vm_compute; reflexivity).
  split; [exact Hlogin |]. split; [exact Hempty |].
  destruct (main_empty_result_raises Sample.env_small ctx initial_world
              Sample.logged_in w2 Hlogin Hempty) as [Hmain _].
  rewrite Hmain. reflexivity.
Defined.

(** * Further properties of the code *)

(** ** The classifier, end to end *)

Lemma fresh_dec a : fresh a ∨ ¬ fresh a.
Proof.
  unfold fresh.
  destruct (decide (account_type a = T_UNSET)),
    (decide (account_status a = S_UNSET)); tauto.
Qed.

(** X1: [classify] writes the three computed fields only: the email, the
    two flags and the role are what they were, whether the call returns or
    raises. *)
Theorem classify_keeps_inputs (a : Account) :
  let a' := fst (classify a) in
  email a' = email a ∧ federated a' = federated a ∧ role a' = role a
  ∧ two_factor_authentication a' = two_factor_authentication a.
Proof.
  destruct (fresh_dec a) as [Hf | Hf].
  - by rewrite (classify_fresh_eq a Hf).
  - by rewrite (classify_stale a Hf).
Qed.

(** X2: once [classify] has returned, the status is OKAY or BAD (the branch
    that keeps a status UNKNOWN is never taken), an account of type UNKNOWN
    is BAD, and the account needs action exactly when its status is BAD. *)
Theorem classify_status_okay_or_bad (a : Account)
    (Hret : snd (classify a) = inl tt) :
  let a' := fst (classify a) in
  (account_status a' = OKAY ∨ account_status a' = BAD)
  ∧ (account_type a' = T_UNKNOWN → account_status a' = BAD)
  ∧ (needs_action a' = true ↔ account_status a' = BAD).
Proof.
  apply classify_returns_fresh in Hret.
  rewrite (classify_fresh_eq a Hret). simpl.
  destruct (spec_type (email a)) eqn:Ht, (federated a),
    (two_factor_authentication a); simpl; try (intuition congruence);
    unfold spec_type in Ht; by repeat case_match.
Qed.

(** X3: the policy in terms of what the API sends: a record that has not
    been classified ends up needing no action exactly when it is a staff
    address using SSO, an organizational "heroku-" address without SSO and
    2FA both set, or an outside address without the "heroku-" prefix that
    has 2FA. *)
Theorem classify_policy (a : Account) (Hf : fresh a) :
  needs_action (fst (classify a)) = false ↔
    (org_email (email a) ∧ ¬ service_prefixed (email a)
     ∧ federated a = true)
    ∨ (org_email (email a) ∧ service_prefixed (email a)
       ∧ ¬ (federated a = true ∧ two_factor_authentication a = true))
    ∨ (¬ org_email (email a) ∧ ¬ service_prefixed (email a)
       ∧ two_factor_authentication a = true).
Proof.
  rewrite (classify_fresh_eq a Hf). simpl. unfold spec_type.
  rewrite <- endswith_any_org, <- startswith_service.
  destruct (endswith_any _ _), (startswith _ _), (federated a),
    (two_factor_authentication a); simpl; intuition congruence.
Qed.

Lemma classify_status_okay_or_bad_witness :
  snd (classify Sample.heroku_ci) = inl tt
  ∧ account_status (fst (classify Sample.heroku_ci)) = BAD.
Proof.
  assert (snd (classify Sample.heroku_ci) = inl tt) as Hret by reflexivity.
  split; [exact Hret |].
  destruct (classify_status_okay_or_bad Sample.heroku_ci Hret)
    as (_ & _ & Hiff).
  apply Hiff. reflexivity.
Defined.

Lemma classify_policy_witness :
  fresh (account_of_raw Sample.alice)
  ∧ needs_action (fst (classify (account_of_raw Sample.alice))) = false.
Proof.
  assert (fresh (account_of_raw Sample.alice)) as Hf by (split; reflexivity).
  split; [exact Hf |].
  apply (classify_policy (account_of_raw Sample.alice) Hf).
  left. split; [| split; [| reflexivity]].
  - exists "@mozilla.com", "alice". split; [apply list_elem_of_here | reflexivity].
  - intros [r Hr]. discriminate Hr.
Defined.

Lemma classify_sets_both a :
  fresh a →
  account_type (fst (classify a)) ≠ T_UNSET
  ∧ account_status (fst (classify a)) ≠ S_UNSET.
Proof.
  intros Hf. rewrite (classify_fresh_eq a Hf). simpl. split.
  - unfold spec_type. by repeat case_match.
  - destruct (spec_type (email a)), (federated a),
      (two_factor_authentication a); done.
Qed.

(** ** The API client and its caches *)

Section Caches.

Variable env : environment.

(** X4: [members] is memoized on success: right after a call that returned,
    a second call for the same team returns the same list and leaves the
    world as it is, so no request is issued. *)
Theorem members_memoized (team : string) (w w1 : world)
    (raws : list raw_member)
    (Hcall : members env team w = (w1, inl raws)) :
  members_cache (st w1) !! team = Some raws
  ∧ members env team w1 = (w1, inl raws).
Proof.
  assert (members_cache (st w1) !! team = Some raws) as Hc.
  { destruct (members_cache (st w) !! team) as [raws0 |] eqn:Hc0.
    - rewrite (members_cached _ _ _ _ Hc0) in Hcall. by simplify_eq.
    - rewrite members_fetch in Hcall by done.
      destruct (api_members env _ _); simplify_eq. simpl.
      by rewrite lookup_insert_eq. }
  split; [done |]. by apply members_cached.
Qed.


Lemma members_steps team w w1 r :
  members env team w = (w1, r) →
  all_members_cache (st w1) = all_members_cache (st w)
  ∧ Heroku_Token (st w1) = Heroku_Token (st w)
  ∧ stdout (st w1) = stdout (st w)
  ∧ (trace w1 = trace w
     ∨ trace w1 = trace w ++ [EvRequest (members_request (st w) team)]).
Proof.
  destruct (members_cache (st w) !! team) as [raws0 |] eqn:Hc0.
  - rewrite (members_cached _ _ _ _ Hc0). intros ?. simplify_eq. eauto.
  - rewrite members_fetch by done.
    destruct (api_members env _ _); intros ?; simplify_eq; simpl; eauto.
Qed.

Lemma all_members_steps team w w1 accts :
  all_members env team w = (w1, inl accts) →
  all_members_cache (st w1) !! team = Some accts
  ∧ Heroku_Token (st w1) = Heroku_Token (st w)
  ∧ stdout (st w1) = stdout (st w)
  ∧ (trace w1 = trace w
     ∨ trace w1 = trace w ++ [EvRequest (members_request (st w) team)]).
Proof.
  intros Hcall.
  destruct (all_members_cache (st w) !! team) as [accts0 |] eqn:Hc0.
  - rewrite (all_members_hit _ _ _ _ Hc0) in Hcall. simplify_eq. eauto.
  - rewrite all_members_miss in Hcall by done.
    destruct (members env team w) as [w0 [raws | e]] eqn:Hm; simplify_eq.
    destruct (members_steps _ _ _ _ Hm) as (_ & ? & ? & ?).
    simpl. by rewrite lookup_insert_eq.
Qed.

(** X6: [all_members] is memoized on success, and one call issues at most
    one request, the list request of the team. *)
Theorem all_members_memoized (team : string) (w w1 : world)
    (accts : list Account)
    (Hcall : all_members env team w = (w1, inl accts)) :
  all_members env team w1 = (w1, inl accts)
  ∧ (trace w1 = trace w
     ∨ trace w1 = trace w ++ [EvRequest (members_request (st w) team)]).
Proof.
  destruct (all_members_steps _ _ _ _ Hcall) as (Hc & _ & _ & Ht).
  split; [by apply all_members_hit | done].
Qed.

Lemma account_of_raw_kept d :
  email (fst (classify (account_of_raw d))) = email (account_of_raw d)
  ∧ federated (fst (classify (account_of_raw d)))
    = federated (account_of_raw d).
Proof.
  by rewrite (classify_fresh_eq _ (account_of_raw_fresh d)).
Qed.

Lemma account_of_classified d : classified (account_of d).
Proof.
  unfold account_of.
  destruct (classify_sets_both (account_of_raw d)
              (account_of_raw_fresh d)) as [? ?]. done.
Qed.

(** X7: the [all_members] cache only ever holds classified accounts: a call
    keeps that invariant, whether it returns or raises, and every account
    it returns has a type and a status different from UNSET. *)
Theorem all_members_classified (team : string) (w w1 : world)
    (r : list Account + exn)
    (Hinv : classified_cache (st w))
    (Hcall : all_members env team w = (w1, r)) :
  classified_cache (st w1)
  ∧ ∀ accts, r = inl accts → Forall classified accts.
Proof.
  destruct (all_members_cache (st w) !! team) as [accts0 |] eqn:Hc0.
  - rewrite (all_members_hit _ _ _ _ Hc0) in Hcall. simplify_eq.
    split; [done |]. intros accts ?. simplify_eq. eauto.
  - rewrite all_members_miss in Hcall by done.
    destruct (members env team w) as [w0 [raws | e]] eqn:Hm; simplify_eq.
    + destruct (members_steps _ _ _ _ Hm) as (Ha & _).
      assert (Forall classified (map account_of raws)) as Hall.
      { apply Forall_fmap, Forall_forall. intros d _.
        apply account_of_classified. }
      split.
      * intros t accts. simpl. rewrite Ha.
        destruct (decide (team = t)) as [-> | Hne].
        -- rewrite lookup_insert_eq. intros ?. by simplify_eq.
        -- rewrite lookup_insert_ne by done. apply Hinv.
      * intros accts ?. by simplify_eq.
    + destruct (members_steps _ _ _ _ Hm) as (Ha & _).
      split; [| done]. intros t accts. rewrite Ha. apply Hinv.
Qed.

(** X8: when nothing is cached and the list request succeeds,
    [member_emails] returns one email per record of the answer, in the
    order of the answer; a record without the email key gives the empty
    string. *)
Theorem member_emails_fetched (ctx : Context) (w : world)
    (raws : list raw_member)
    (Hmiss : all_members_cache (st w) !! team ctx = None)
    (Hraw : members_cache (st w) !! team ctx = None)
    (Hresp : api_members env (trace w) (members_request (st w) (team ctx))
             = RespOK raws) :
  ∃ w1,
    member_emails env ctx w = (w1, inl (map email_of_raw raws))
    ∧ trace w1 = trace w ++ [EvRequest (members_request (st w) (team ctx))]
    ∧ all_members_cache (st w1) !! team ctx = Some (map account_of raws).
Proof.
  unfold member_emails. run. rewrite all_members_miss by done.
  rewrite members_fetch, Hresp by done. eexists. split; [| split].
  - f_equal. f_equal. rewrite map_map. apply map_ext. intros d.
    unfold account_of, email_of_raw.
    destruct (account_of_raw_kept d) as [-> _].
    unfold account_of_raw.
    by destruct (raw_email d), (raw_federated d), (raw_role d) as [[?|]|],
      (raw_two_factor_authentication d).
  - done.
  - simpl. by rewrite lookup_insert_eq.
Qed.

(** X9: [do_revoke] issues exactly one call, the DELETE of the member
    resource under the stored token, and never changes the program state.
    A parsed answer is returned as it is; an error of the connection that
    carries no HTTP status surfaces as [AttributeError] (the handler reads
    [e.code]); an answer that cannot be decoded raises [ValueError]. *)
Theorem do_revoke_outcome (addr : string) (ctx : Context) (w : world) :
  let req := delete_request (st w) (team ctx) addr in
  let w1 := fst (do_revoke env addr ctx w) in
  st w1 = st w
  ∧ trace w1 = trace w ++ [EvRequest req]
  ∧ req_url req
    = "https://api.heroku.com/teams/" +:+ team ctx +:+ "/members/" +:+ addr
  ∧ (∀ j, api_delete env (trace w) req = RespOK j →
          snd (do_revoke env addr ctx w) = inl (IJson j))
  ∧ (api_delete env (trace w) req = RespURLError →
     snd (do_revoke env addr ctx w) = inr AttributeError)
  ∧ (api_delete env (trace w) req = RespBadBody →
     snd (do_revoke env addr ctx w) = inr ValueError).
Proof.
  simpl. rewrite do_revoke_eq. simpl.
  split_and!; try done; by intros; simplify_eq; rewrite ?H.
Qed.

End Caches.

(** ** Membership checks and the two batch handlers *)

Section Batches.

Variable env : environment.

Lemma members_request_token s s' team :
  Heroku_Token s' = Heroku_Token s →
  members_request s' team = members_request s team.
Proof. unfold members_request. by intros ->. Qed.

Lemma delete_request_token s s' team addr :
  Heroku_Token s' = Heroku_Token s →
  delete_request s' team addr = delete_request s team addr.
Proof. unfold delete_request. by intros ->. Qed.

(** With the member list at hand a call of [all_members] returns it, caches
    it, keeps token and output, and issues at most the list request. *)
Lemma all_members_roster_trace team w accts :
  roster env (st w) team accts →
  ∃ w',
    all_members env team w = (w', inl accts)
    ∧ all_members_cache (st w') !! team = Some accts
    ∧ Heroku_Token (st w') = Heroku_Token (st w)
    ∧ stdout (st w') = stdout (st w)
    ∧ (trace w' = trace w
       ∨ trace w' = trace w ++ [EvRequest (members_request (st w) team)]).
Proof.
  intros Hr.
  destruct (all_members_roster env team w accts Hr)
    as (w' & evs & Hall & _).
  exists w'. split; [done |]. by apply (all_members_steps env).
Qed.

Lemma is_member_cached addr ctx w accts :
  all_members_cache (st w) !! team ctx = Some accts →
  is_member env addr ctx w = (w, inl (member_of accts addr)).
Proof.
  intros Hc. unfold is_member, member_of.
  destruct (endswith addr "@example.com"); [done |].
  unfold member_emails. run. by rewrite (all_members_hit _ _ _ _ Hc).
Qed.

Lemma is_member_roster_trace addr ctx w accts :
  roster env (st w) (team ctx) accts →
  ∃ w',
    is_member env addr ctx w = (w', inl (member_of accts addr))
    ∧ Heroku_Token (st w') = Heroku_Token (st w)
    ∧ stdout (st w') = stdout (st w)
    ∧ (w' = w
       ∨ (all_members_cache (st w') !! team ctx = Some accts
          ∧ (trace w' = trace w
             ∨ trace w' = trace w
                 ++ [EvRequest (members_request (st w) (team ctx))]))).
Proof.
  intros Hr. unfold is_member, member_of.
  destruct (endswith addr "@example.com") eqn:Hex.
  - exists w. eauto.
  - destruct (all_members_roster_trace _ _ _ Hr)
      as (w' & Hall & Hc & Htok & Hout & Ht).
    exists w'. unfold member_emails. run. rewrite Hall. run. eauto 10.
Qed.

Lemma roster_cached s team accts :
  all_members_cache s !! team = Some accts → roster env s team accts.
Proof. by left. Qed.

(** *** membership_verify *)

Lemma verify_loop_cached ctx accts l w :
  all_members_cache (st w) !! team ctx = Some accts →
  for_each
    (λ addr,
       b <- is_member env addr ctx ;;
       if b then ret (addr +:+ " is a member of " +:+ team ctx)
       else ret (addr +:+ " is NOT a member of " +:+ team ctx)) l w
  = (w, inl (map (verify_entry ctx accts) l)).
Proof.
  intros Hc. induction l as [|addr l IH]; [done |].
  eapply for_each_cons_returns; [| exact IH].
  rewrite (bind_returns _ _ _ _ _ (is_member_cached addr ctx w accts Hc)).
  unfold verify_entry. by destruct (member_of accts addr).
Qed.

Lemma verify_loop_roster ctx accts l w :
  roster env (st w) (team ctx) accts →
  ∃ w',
    for_each
      (λ addr,
         b <- is_member env addr ctx ;;
         if b then ret (addr +:+ " is a member of " +:+ team ctx)
         else ret (addr +:+ " is NOT a member of " +:+ team ctx)) l w
    = (w', inl (map (verify_entry ctx accts) l))
    ∧ Heroku_Token (st w') = Heroku_Token (st w)
    ∧ stdout (st w') = stdout (st w)
    ∧ (trace w' = trace w
       ∨ trace w' = trace w
           ++ [EvRequest (members_request (st w) (team ctx))]).
Proof.
  intros Hr. induction l as [|addr l IH].
  - exists w. eauto.
  - destruct (is_member_roster_trace addr ctx w accts Hr)
      as (w1 & Hm & Htok & Hout & Hcase).
    assert (∀ w2, (λ addr0,
               b <- is_member env addr0 ctx ;;
               if b then ret (addr0 +:+ " is a member of " +:+ team ctx)
               else ret (addr0 +:+ " is NOT a member of " +:+ team ctx))
              addr w = (w2, inl (verify_entry ctx accts addr)) ↔ w2 = w1)
      as Hstep.
    { intros w2. rewrite (bind_returns _ _ _ _ _ Hm). unfold verify_entry.
      destruct (member_of accts addr); unfold ret; split; intros ?;
        by simplify_eq. }
    destruct Hcase as [-> | (Hc & Ht)].
    + destruct IH as (w' & Hrun & ? & ? & ?). exists w'.
      split; [| done].
      eapply for_each_cons_returns; [by apply Hstep | exact Hrun].
    + exists w1. split; [| done].
      eapply for_each_cons_returns; [by apply Hstep |].
      by apply verify_loop_cached.
Qed.

(** X10: with the member list at hand, [membership_verify] returns for each
    address, in order, "<addr> is a member of <team>" when the address ends
    with "@example.com" or equals the email of a member and "<addr> is NOT
    a member of <team>" otherwise; the whole batch issues at most one
    request, the list request, and leaves token and output as they were. *)
Theorem membership_verify_entries (ctx : Context) (w : world)
    (accts : list Account)
    (Hroster : roster env (st w) (team ctx) accts) :
  ∃ w',
    membership_verify env ctx w
    = (w', inl (map (verify_entry ctx accts) (emails ctx)))
    ∧ Heroku_Token (st w') = Heroku_Token (st w)
    ∧ stdout (st w') = stdout (st w)
    ∧ (trace w' = trace w
       ∨ trace w' = trace w
           ++ [EvRequest (members_request (st w) (team ctx))])
    ∧ ∀ addr, addr ∈ emails ctx →
        (verify_entry ctx accts addr = addr +:+ " is a member of " +:+ team ctx
         ↔ example_address addr ∨ addr ∈ map email accts).
Proof.
  destruct (verify_loop_roster ctx accts (emails ctx) w Hroster)
    as (w' & Hrun & Htok & Hout & Ht).
  exists w'. split_and!; try done.
  intros addr _. unfold verify_entry, member_of.
  rewrite example_address_endswith.
  destruct (endswith addr "@example.com"); simpl; [tauto |].
  case_bool_decide as Hin; simpl; [tauto |]. split.
  - intros Heq. apply (inj (String.app addr)) in Heq. discriminate Heq.
  - intros [? | ?]; [discriminate | done].
Qed.

(** *** membership_revoke *)

Lemma delete_events_app evs1 evs2 :
  delete_events (evs1 ++ evs2) = delete_events evs1 ++ delete_events evs2.
Proof. apply filter_app. Qed.

Lemma delete_events_steps (w w' : world) team (s : state) :
  trace w' = trace w
  ∨ trace w' = trace w ++ [EvRequest (members_request s team)] →
  ∃ evs, trace w' = trace w ++ evs ∧ delete_events evs = [].
Proof.
  intros [-> | ->].
  - exists []. by rewrite app_nil_r.
  - by eexists.
Qed.

(** One round of the loop of [membership_revoke], with the calls it
    issues. *)
Lemma step_roster_calls ctx addr w accts :
  roster env (st w) (team ctx) accts →
  ∃ w' r evs,
    membership_revoke_step env ctx addr w = (w', inl r)
    ∧ roster env (st w') (team ctx) accts
    ∧ Heroku_Token (st w') = Heroku_Token (st w)
    ∧ trace w' = trace w ++ evs
    ∧ delete_events evs
      = if member_of accts addr
        then [EvRequest (delete_request (st w) (team ctx) addr)]
        else [].
Proof.
  intros Hr.
  assert (∀ w0 w1,
            roster env (st w0) (team ctx) accts →
            w1 = w0
            ∨ all_members_cache (st w1) !! team ctx = Some accts
              ∧ (trace w1 = trace w0
                 ∨ trace w1 = trace w0
                     ++ [EvRequest (members_request (st w0) (team ctx))]) →
            roster env (st w1) (team ctx) accts
            ∧ ∃ evs, trace w1 = trace w0 ++ evs ∧ delete_events evs = [])
    as Hquiet.
  { intros w0 w1 Hr0 [-> | (Hc & Ht)].
    - split; [done |]. exists []. by rewrite app_nil_r.
    - split; [by left |]. eauto using delete_events_steps. }
  destruct (is_member_roster_trace addr ctx w accts Hr)
    as (w1 & H1 & Htok1 & _ & Hcase1).
  destruct (Hquiet w w1 Hr Hcase1) as (Hr1 & evs1 & Ht1 & Hd1).
  destruct (member_of accts addr) eqn:Hm.
  - destruct (is_member_roster_trace addr ctx w1 accts Hr1)
      as (w2 & H2 & Htok2 & _ & Hcase2).
    destruct (Hquiet w1 w2 Hr1 Hcase2) as (Hr2 & evs2 & Ht2 & Hd2).
    rewrite Hm in H2.
    destruct (step_member env ctx addr w w1 w2 H1 H2)
      as (w3 & r & Hstep & _ & Hsame & Ht3).
    exists w3, r,
      (evs1 ++ evs2 ++ [EvRequest (delete_request (st w2) (team ctx) addr)]).
    split_and!; try done.
    + eauto using roster_same_session.
    + destruct Hsame as (-> & _). congruence.
    + rewrite Ht3, Ht2, Ht1. by rewrite <- !app_assoc.
    + rewrite !delete_events_app, Hd1, Hd2. simpl.
      rewrite (delete_request_token (st w) (st w2)) by congruence. done.
  - exists w1, (not_member_entry ctx addr), evs1.
    split_and!; try done. by apply step_not_member.
Qed.

Lemma revoke_loop_calls ctx accts l w :
  roster env (st w) (team ctx) accts →
  ∃ w' status evs,
    for_each (membership_revoke_step env ctx) l w = (w', inl status)
    ∧ roster env (st w') (team ctx) accts
    ∧ Heroku_Token (st w') = Heroku_Token (st w)
    ∧ trace w' = trace w ++ evs
    ∧ delete_events evs
      = map (λ a, EvRequest (delete_request (st w) (team ctx) a))
          (filter (λ a, member_of accts a) l).
Proof.
  revert w. induction l as [|addr l IH]; intros w Hr.
  - exists w, [], []. by rewrite app_nil_r.
  - destruct (step_roster_calls ctx addr w accts Hr)
      as (w1 & r & evs1 & Hstep & Hr1 & Htok1 & Ht1 & Hd1).
    destruct (IH w1 Hr1)
      as (w2 & status & evs2 & Hloop & Hr2 & Htok2 & Ht2 & Hd2).
    exists w2, (r :: status), (evs1 ++ evs2). split_and!; try done.
    + eauto using for_each_cons_returns.
    + congruence.
    + rewrite Ht2, Ht1. by rewrite <- app_assoc.
    + rewrite delete_events_app, Hd1, Hd2, filter_cons.
      assert (∀ a, delete_request (st w1) (team ctx) a
                   = delete_request (st w) (team ctx) a) as Hreq
        by (intros a; by apply delete_request_token).
      destruct (member_of accts addr); simpl.
      * f_equal. apply map_ext. intros a. by rewrite Hreq.
      * apply map_ext. intros a. by rewrite Hreq.
Qed.

(** X11: with the member list at hand, the DELETE calls a batch issues are
    exactly one per occurrence of a member address (an address listed twice
    is deleted twice), in input order, each for the member resource of that
    address under the stored token. *)
Theorem membership_revoke_delete_calls (ctx : Context) (w : world)
    (accts : list Account)
    (Hroster : roster env (st w) (team ctx) accts) :
  ∃ w' status evs,
    membership_revoke env ctx w = (w', inl status)
    ∧ trace w' = trace w ++ evs
    ∧ delete_events evs
      = map (λ a, EvRequest (delete_request (st w) (team ctx) a))
          (filter (λ a, member_of accts a) (emails ctx)).
Proof.
  destruct (revoke_loop_calls ctx accts (emails ctx) w Hroster)
    as (w' & status & evs & Hrun & _ & _ & Ht & Hd).
  by exists w', status, evs.
Qed.

(** X12: a batch does not refresh the member list: after
    [membership_revoke] has returned, [is_member] answers for every address
    what it answered before, also for an address the batch has just
    deleted. *)
Theorem membership_revoke_keeps_roster (ctx : Context) (w w' : world)
    (accts : list Account) (status : list item)
    (Hroster : roster env (st w) (team ctx) accts)
    (Hrun : membership_revoke env ctx w = (w', inl status)) :
  roster env (st w') (team ctx) accts
  ∧ ∀ addr, ∃ w'',
      is_member env addr ctx w' = (w'', inl (member_of accts addr)).
Proof.
  destruct (revoke_loop_calls ctx accts (emails ctx) w Hroster)
    as (w1 & status1 & evs & Hrun1 & Hr1 & _).
  unfold membership_revoke in Hrun. rewrite Hrun in Hrun1. simplify_eq.
  split; [done |]. intros addr.
  destruct (is_member_roster_trace addr ctx w1 accts Hr1) as (w2 & H2 & _).
  eauto.
Qed.

(** X13: [revoke] called on its own for an address that is not a member
    returns "FAIL: <addr> is not a member of <team>" and issues no DELETE
    call. *)
Theorem revoke_not_member (addr : string) (ctx : Context) (w : world)
    (accts : list Account)
    (Hroster : roster env (st w) (team ctx) accts)
    (Hnot : member_of accts addr = false) :
  ∃ w' evs,
    revoke env addr ctx w
    = (w', inl (IStr ("FAIL: " +:+ addr +:+ " is not a member of "
                      +:+ team ctx)))
    ∧ trace w' = trace w ++ evs
    ∧ delete_events evs = [].
Proof.
  destruct (is_member_roster_trace addr ctx w accts Hroster)
    as (w1 & H1 & _ & _ & Hcase).
  rewrite Hnot in H1.
  assert (∃ evs, trace w1 = trace w ++ evs ∧ delete_events evs = [])
    as (evs & Ht & Hd).
  { destruct Hcase as [-> | (_ & Ht)].
    - exists []. by rewrite app_nil_r.
    - eauto using delete_events_steps. }
  exists w1, evs. split; [| done].
  unfold revoke. by rewrite (bind_returns _ _ _ _ _ H1).
Qed.

End Batches.

(** ** The front end, from login to output *)

Section FrontEnd.

Variable env : environment.

(** X14: [login] stores the resolved token: a token that does not start
    with "op://" is stored as given without running the secret tool, a
    reference is replaced by the output of one run of the tool; the caches
    and the output are untouched, and from then on the request headers carry
    "Bearer <token>". *)
Theorem login_stores_token (tok team : string) (w w1 : world)
    (Hlogin : login env (Some tok) team w = (w1, inl tt)) :
  ∃ t,
    Heroku_Token (st w1) = Some t
    ∧ (if startswith tok "op://"
       then op_read env (trace w) tok = inl t
            ∧ trace w1 = trace w ++ [EvOp tok]
       else t = tok ∧ trace w1 = trace w)
    ∧ members_cache (st w1) = members_cache (st w)
    ∧ all_members_cache (st w1) = all_members_cache (st w)
    ∧ stdout (st w1) = stdout (st w)
    ∧ _get_headers w1
      = (w1, inl [ ("Accept", "application/vnd.heroku+json; version=3");
                   ("Authorization", "Bearer " +:+ t) ]).
Proof.
  destruct (startswith tok "op://") eqn:Hop.
  - rewrite (login_reference env _ _ _ Hop) in Hlogin.
    destruct (op_read env (trace w) tok) as [out | msg]; simplify_eq.
    exists out. by rewrite get_headers_eq.
  - rewrite (login_plain env _ _ _ Hop) in Hlogin. simplify_eq.
    exists tok. by rewrite get_headers_eq.
Qed.

(** X15: without a token (no --token and no HEROKU_TOKEN) [main] stops in
    [login] with [AttributeError]: nothing is printed, no tool is run and no
    request is issued. *)
Theorem main_without_token (ctx : Context) (w : world)
    (Hnone : token ctx = None) :
  main env ctx w = (w, inr AttributeError).
Proof.
  unfold main, login. rewrite Hnone. run.
  by destruct (truthy (Heroku_Token (st w))).
Qed.

(** X16: when the token is a reference and the secret tool fails, [main]
    exits with [SystemExit] carrying "failed to retrieve token from `op`:"
    and the [repr] of the failure; the tool was run once, no token was
    stored, nothing was printed and no request was issued. *)
Theorem main_secret_tool_failure (ctx : Context) (w : world)
    (ref msg : string)
    (Htoken : token ctx = Some ref)
    (Href : startswith ref "op://" = true)
    (Hfail : op_read env (trace w) ref = inr msg) :
  main env ctx w
  = ({| st := st w; trace := trace w ++ [EvOp ref] |},
     inr (SystemExit ("failed to retrieve token from `op`: " +:+ msg))).
Proof.
  unfold main. rewrite Htoken.
  erewrite bind_raises; [done |].
  by rewrite (login_reference env _ _ _ Href), Hfail.
Qed.



Lemma item_str_raises result w :
  Exists (λ r, is_str r = false) result →
  for_each item_str result w = (w, inr TypeError).
Proof.
  induction result as [|r result IH]; intros Hex.
  - by apply Exists_nil in Hex.
  - simpl. destruct (is_str r) eqn:Hr.
    + apply Exists_cons in Hex as [Hex | Hex]; [congruence |].
      assert (∃ s, item_str r w = (w, inl s)) as [s Hs]
        by (destruct r as [| |[|]]; try done; eauto).
      rewrite (bind_returns _ _ _ _ _ Hs).
      by rewrite (bind_raises _ _ _ _ _ (IH Hex)).
    + erewrite bind_raises; [done |].
      by destruct r as [| |[|]].
Qed.

(** The rest of [main] once the handler has returned. *)
Lemma main_after_handler ctx w w1 w2 result :
  login env (token ctx) (team ctx) w = (w1, inl tt) →
  call_handler env ctx w1 = (w2, inl result) →
  main env ctx w
  = (r0 <- first_item result ;;
     output <- (if is_Account r0 then
                  texts <- for_each item_as_text result ;;
                  ret (join newline texts)
                else
                  strs <- for_each item_str result ;;
                  ret (join newline strs)) ;;
     (if clip ctx then
        emit (EvClip output) ;;
        print (OutStr "(also copied to clipboard)")
      else ret tt) ;;
     print (OutStr output))
      (printed (OutStr ("result of running " +:+ handler_fname (func ctx)))
         w2).
Proof.
  intros Hlogin Hres. unfold main.
  rewrite (bind_returns _ _ _ _ _ Hlogin).
  by rewrite (bind_returns _ _ _ _ _ Hres).
Qed.

Lemma set_stdout_app s o1 o2 :
  set_stdout (stdout (set_stdout (stdout s ++ o1) s) ++ o2)
    (set_stdout (stdout s ++ o1) s)
  = set_stdout (stdout s ++ o1 ++ o2) s.
Proof. unfold set_stdout. simpl. by rewrite <- app_assoc. Qed.



(** X19: when the result of the handler starts with something that is not
    an account and holds an element that is not a string (the parsed answer
    of a successful DELETE), [main] prints the heading and then raises
    [TypeError] in the join: the result of the batch is never printed. *)
Theorem main_join_type_error (ctx : Context) (w w1 w2 : world)
    (r0 : item) (rest : list item)
    (Hlogin : login env (token ctx) (team ctx) w = (w1, inl tt))
    (Hres : call_handler env ctx w1 = (w2, inl (r0 :: rest)))
    (Hfirst : is_Account r0 = false)
    (Hbad : Exists (λ r, is_str r = false) (r0 :: rest)) :
  main env ctx w
  = (printed (OutStr ("result of running " +:+ handler_fname (func ctx))) w2,
     inr TypeError).
Proof.
  rewrite (main_after_handler _ _ _ _ _ Hlogin Hres).
  rewrite (bind_returns (first_item (r0 :: rest)) _ _ _ r0 eq_refl).
  cbv beta. rewrite Hfirst.
  by rewrite (bind_raises _ _ _ _ _
                (bind_raises _ _ _ _ _ (item_str_raises _ _ Hbad))).
Qed.

End FrontEnd.

Section Listing.

Variable env : environment.

(** X20: with the member list at hand, [member_list] with --all returns
    every account of the list; without it, it returns exactly the accounts
    that need action; in both cases in the order of the list. *)
Theorem member_list_selection (ctx : Context) (w : world)
    (accts : list Account)
    (Hroster : roster env (st w) (team ctx) accts) :
  ∃ w' res,
    member_list env ctx w = (w', inl res)
    ∧ sublist res accts
    ∧ (all ctx = true → res = accts)
    ∧ (all ctx = false →
       ∀ a, a ∈ res ↔ a ∈ accts ∧ needs_action a = true).
Proof.
  destruct (member_list_roster env ctx w accts Hroster) as (w' & Hrun).
  eexists w', _. split; [exact Hrun |]. split_and!.
  - apply sublist_filter.
  - intros Hall. rewrite Hall. clear.
    induction accts as [|a l IH]; [done |].
    rewrite filter_cons_True, IH; [done |].
    by rewrite orb_true_r.
  - intros Hall a. rewrite Hall, list_elem_of_filter, orb_false_r.
    rewrite Is_true_true. tauto.
Qed.

End Listing.

(** ** Sample runs of the further properties *)

Lemma members_memoized_witness :
  let w1 := fst (members Sample.env_small Sample.team_name Sample.logged_in) in
  members Sample.env_small Sample.team_name Sample.logged_in
  = (w1, inl [Sample.alice])
  ∧ members Sample.env_small Sample.team_name w1 = (w1, inl [Sample.alice]).
Proof.
  intros w1.
  assert (members Sample.env_small Sample.team_name Sample.logged_in
          = (w1, inl [Sample.alice])) as Hcall by (vm_compute; reflexivity).
  split; [exact Hcall |].
  exact (proj2 (members_memoized Sample.env_small Sample.team_name
                  Sample.logged_in w1 [Sample.alice] Hcall)).
Defined.


Lemma all_members_memoized_witness :
  let w1 := fst (all_members Sample.env_small Sample.team_name
                   Sample.logged_in) in
  all_members Sample.env_small Sample.team_name Sample.logged_in
  = (w1, inl [account_of Sample.alice])
  ∧ all_members Sample.env_small Sample.team_name w1
    = (w1, inl [account_of Sample.alice]).
Proof.
  intros w1.
  assert (all_members Sample.env_small Sample.team_name Sample.logged_in
          = (w1, inl [account_of Sample.alice])) as Hcall
    by (vm_compute; reflexivity).
  split; [exact Hcall |].
  exact (proj1 (all_members_memoized Sample.env_small Sample.team_name
                  Sample.logged_in w1 [account_of Sample.alice] Hcall)).
Defined.

Lemma logged_in_classified_cache : classified_cache (st Sample.logged_in).
Proof. intros team accts H. discriminate H. Defined.

Lemma all_members_classified_witness :
  let run := all_members Sample2.env_pair Sample.team_name Sample.logged_in in
  classified_cache (st Sample.logged_in)
  ∧ run = (fst run, inl [account_of Sample.alice;
                         account_of Sample2.anonymous])
  ∧ classified_cache (st (fst run))
  ∧ Forall classified [account_of Sample.alice; account_of Sample2.anonymous].
Proof.
  intros run.
  assert (run = (fst run, inl [account_of Sample.alice;
                               account_of Sample2.anonymous])) as Hcall
    by (vm_compute; reflexivity).
  split; [exact logged_in_classified_cache |]. split; [exact Hcall |].
  destruct (all_members_classified Sample2.env_pair Sample.team_name
              Sample.logged_in (fst run) _ logged_in_classified_cache Hcall)
    as [Hinv Hall].
  split; [exact Hinv | exact (Hall _ eq_refl)].
Defined.

Lemma member_emails_fetched_witness :
  all_members_cache (st Sample.logged_in) !! Sample.team_name = None
  ∧ members_cache (st Sample.logged_in) !! Sample.team_name = None
  ∧ ∃ w1,
      member_emails Sample2.env_pair (Sample.ctx_for member_emails_cmd [])
        Sample.logged_in
      = (w1, inl ["alice@mozilla.com"; ""]).
Proof.
  split; [reflexivity |]. split; [reflexivity |].
  destruct (member_emails_fetched Sample2.env_pair
              (Sample.ctx_for member_emails_cmd []) Sample.logged_in
              [Sample.alice; Sample2.anonymous] eq_refl eq_refl eq_refl)
    as (w1 & Hrun & _).
  exists w1. exact Hrun.
Defined.

Lemma roster_fetchable env s team raws :
  all_members_cache s !! team = None →
  members_cache s !! team = None →
  (∀ h, api_members env h (members_request s team) = RespOK raws) →
  roster env s team (map account_of raws).
Proof. intros Ha Hm Hapi. right. eauto 10. Defined.

Lemma membership_verify_entries_witness :
  let ctx := Sample.ctx_for membership_verify_cmd
               ["alice@mozilla.com"; "ghost@nowhere.test"] in
  roster Sample.env_small (st Sample.logged_in) (team ctx)
    [account_of Sample.alice]
  ∧ ∃ w',
      membership_verify Sample.env_small ctx Sample.logged_in
      = (w', inl ["alice@mozilla.com is a member of mozillacorporation";
                  "ghost@nowhere.test is NOT a member of mozillacorporation"]).
Proof.
  intros ctx. split; [exact roster_small_team |].
  destruct (membership_verify_entries Sample.env_small ctx Sample.logged_in
              [account_of Sample.alice] roster_small_team)
    as (w' & Hrun & _).
  exists w'. exact Hrun.
Defined.

Lemma membership_revoke_delete_calls_witness :
  let ctx := Sample.ctx_for membership_revoke_cmd
               ["alice@mozilla.com"; "ghost@nowhere.test";
                "alice@mozilla.com"] in
  roster Sample.env_small (st Sample.logged_in) (team ctx)
    [account_of Sample.alice]
  ∧ ∃ w' status evs,
      membership_revoke Sample.env_small ctx Sample.logged_in
      = (w', inl status)
      ∧ trace w' = trace Sample.logged_in ++ evs
      ∧ delete_events evs
        = [ EvRequest (delete_request (st Sample.logged_in) Sample.team_name
                         "alice@mozilla.com");
            EvRequest (delete_request (st Sample.logged_in) Sample.team_name
                         "alice@mozilla.com") ].
Proof.
  intros ctx. split; [exact roster_small_team |].
  exact (membership_revoke_delete_calls Sample.env_small ctx Sample.logged_in
           [account_of Sample.alice] roster_small_team).
Defined.

Lemma roster_success_team :
  roster Sample2.env_success (st Sample.logged_in) Sample.team_name
    [account_of Sample.alice].
Proof.
  apply (roster_fetchable Sample2.env_success (st Sample.logged_in)
           Sample.team_name [Sample.alice]); [reflexivity | reflexivity |].
  intros h. reflexivity.
Defined.

Lemma membership_revoke_keeps_roster_witness :
  let ctx := Sample.ctx_for membership_revoke_cmd ["alice@mozilla.com"] in
  let run := membership_revoke Sample2.env_success ctx Sample.logged_in in
  roster Sample2.env_success (st Sample.logged_in) (team ctx)
    [account_of Sample.alice]
  ∧ run = (fst run,
           inl [IJson (JOther "{'email': 'alice@mozilla.com'}")])
  ∧ ∃ w'',
      is_member Sample2.env_success "alice@mozilla.com" ctx (fst run)
      = (w'', inl true).
Proof.
  intros ctx run.
  assert (run = (fst run,
                 inl [IJson (JOther "{'email': 'alice@mozilla.com'}")]))
    as Hrun by (vm_compute; reflexivity).
  split; [exact roster_success_team |]. split; [exact Hrun |].
  destruct (membership_revoke_keeps_roster Sample2.env_success ctx
              Sample.logged_in (fst run) [account_of Sample.alice] _
              roster_success_team Hrun) as [_ Hmem].
  exact (Hmem "alice@mozilla.com").
Defined.

Lemma revoke_not_member_witness :
  let ctx := Sample.ctx_for membership_revoke_cmd ["ghost@nowhere.test"] in
  roster Sample.env_small (st Sample.logged_in) (team ctx)
    [account_of Sample.alice]
  ∧ member_of [account_of Sample.alice] "ghost@nowhere.test" = false
  ∧ ∃ w' evs,
      revoke Sample.env_small "ghost@nowhere.test" ctx Sample.logged_in
      = (w', inl (IStr
           "FAIL: ghost@nowhere.test is not a member of mozillacorporation"))
      ∧ trace w' = trace Sample.logged_in ++ evs
      ∧ delete_events evs = [].
Proof.
  intros ctx. split; [exact roster_small_team |]. split; [reflexivity |].
  exact (revoke_not_member Sample.env_small "ghost@nowhere.test" ctx
           Sample.logged_in [account_of Sample.alice] roster_small_team
           eq_refl).
Defined.

Lemma login_stores_token_witness :
  login Sample.env_small (Some Sample.secret_ref) Sample.team_name
    initial_world
  = ({| st := set_Heroku_Token (Some "tok-A") initial_state;
        trace := [EvOp Sample.secret_ref] |}, inl tt)
  ∧ ∃ t,
      Heroku_Token (set_Heroku_Token (Some "tok-A") initial_state) = Some t
      ∧ op_read Sample.env_small [] Sample.secret_ref = inl t.
Proof.
  assert (login Sample.env_small (Some Sample.secret_ref) Sample.team_name
            initial_world
          = ({| st := set_Heroku_Token (Some "tok-A") initial_state;
                trace := [EvOp Sample.secret_ref] |}, inl tt)) as Hlogin
    by reflexivity.
  split; [exact Hlogin |].
  destruct (login_stores_token Sample.env_small _ _ _ _ Hlogin)
    as (t & Ht & Hop & _).
  exists t. split; [exact Ht | exact (proj1 Hop)].
Defined.

Lemma main_without_token_witness :
  main Sample.env_small
    (mkContext None Sample.team_name false member_emails_cmd false [])
    initial_world
  = (initial_world, inr AttributeError).
Proof.
  exact (main_without_token Sample.env_small
           (mkContext None Sample.team_name false member_emails_cmd false [])
           initial_world eq_refl).
Defined.

Lemma main_secret_tool_failure_witness :
  let ctx := mkContext (Some Sample.secret_ref) Sample.team_name false
               member_emails_cmd false [] in
  token ctx = Some Sample.secret_ref
  ∧ startswith Sample.secret_ref "op://" = true
  ∧ main Sample2.env_locked ctx initial_world
    = ({| st := initial_state; trace := [EvOp Sample.secret_ref] |},
       inr (SystemExit
              ("failed to retrieve token from `op`: "
               +:+ "CalledProcessError(1, ['op', 'read'])"))).
Proof.
  intros ctx. split; [reflexivity |]. split; [reflexivity |].
  exact (main_secret_tool_failure Sample2.env_locked ctx initial_world
           Sample.secret_ref "CalledProcessError(1, ['op', 'read'])"
           eq_refl eq_refl eq_refl).
Defined.



Lemma main_join_type_error_witness :
  let ctx := Sample.ctx_for membership_revoke_cmd ["alice@mozilla.com"] in
  let w2 := fst (call_handler Sample2.env_success ctx Sample.logged_in) in
  login Sample2.env_success (token ctx) (team ctx) initial_world
  = (Sample.logged_in, inl tt)
  ∧ call_handler Sample2.env_success ctx Sample.logged_in
    = (w2, inl [IJson (JOther "{'email': 'alice@mozilla.com'}")])
  ∧ snd (main Sample2.env_success ctx initial_world) = inr TypeError
  ∧ delete_events (trace (fst (main Sample2.env_success ctx initial_world)))
    = [ EvRequest (delete_request (st Sample.logged_in) Sample.team_name
                     "alice@mozilla.com") ].
Proof.
  intros ctx w2.
  assert (login Sample2.env_success (token ctx) (team ctx) initial_world
          = (Sample.logged_in, inl tt)) as Hlogin by reflexivity.
  assert (call_handler Sample2.env_success ctx Sample.logged_in
          = (w2, inl [IJson (JOther "{'email': 'alice@mozilla.com'}")]))
    as Hres by (vm_compute; reflexivity).
  split; [exact Hlogin |]. split; [exact Hres |].
  rewrite (main_join_type_error Sample2.env_success ctx initial_world
             Sample.logged_in w2 _ _ Hlogin Hres eq_refl).
  - split; [reflexivity | vm_compute; reflexivity].
  - apply Exists_cons_hd. reflexivity.
Defined.

Lemma roster_pair_team :
  roster Sample2.env_pair (st Sample.logged_in) Sample.team_name
    [account_of Sample.alice; account_of Sample2.anonymous].
Proof.
  apply (roster_fetchable Sample2.env_pair (st Sample.logged_in)
           Sample.team_name [Sample.alice; Sample2.anonymous]);
    [reflexivity | reflexivity |].
  intros h. reflexivity.
Defined.

Lemma member_list_selection_witness :
  let ctx := Sample.ctx_for member_list_cmd [] in
  roster Sample2.env_pair (st Sample.logged_in) (team ctx)
    [account_of Sample.alice; account_of Sample2.anonymous]
  ∧ ∃ w' res,
      member_list Sample2.env_pair ctx Sample.logged_in = (w', inl res)
      ∧ ∀ a, a ∈ res ↔
             a ∈ [account_of Sample.alice; account_of Sample2.anonymous]
             ∧ needs_action a = true.
Proof.
  intros ctx. split; [exact roster_pair_team |].
  destruct (member_list_selection Sample2.env_pair ctx Sample.logged_in _
              roster_pair_team) as (w' & res & Hrun & _ & _ & Hsel).
  exists w', res. split; [exact Hrun | exact (Hsel eq_refl)].
Defined.
